(** * btc5m_trader: order-book execution risk, discovery, window gate, config

    A shallow embedding of [btc5m_trader.py].  Python's [float] is an
    interface here ([PyFloat]): every function that computes on prices is
    written once against it and is read at two instances,
      - [Q], exact rational arithmetic, in which the general theorems are
        proved, and
      - [float], IEEE binary64 as CPython computes it, on which concrete
        books are evaluated bit for bit.
    Network reads ([api_get]), the clock, the config file and the trading
    client are inputs of the functions that use them. *)

From Stdlib Require Import ZArith QArith Qround Lqa Lia List Permutation Sorted.
From Stdlib Require Import Bool String Ascii Floats Uint63.
From stdpp Require Import gmap strings.
Import ListNotations.

Set Warnings "-inexact-float".

(* ================================================================== *)
(** ** Python floats as an interface *)

Class PyFloat (A : Type) := {
  (** the decimal literal [m / 10^k], e.g. [lit 99 2] for [0.99] *)
  lit    : Z -> nat -> A;
  nadd   : A -> A -> A;
  nsub   : A -> A -> A;
  nmul   : A -> A -> A;
  ndiv   : A -> A -> A;
  nleb   : A -> A -> bool;                 (* x <= y *)
  nltb   : A -> A -> bool;                 (* x <  y *)
  truthy : A -> bool;                      (* bool(x): x != 0 *)
  round  : A -> nat -> A;                  (* round(x, ndigits) *)
}.

Declare Scope py_scope.
Delimit Scope py_scope with py.
Infix "+" := nadd : py_scope.
Infix "-" := nsub : py_scope.
Infix "*" := nmul : py_scope.
Infix "/" := ndiv : py_scope.
Infix "<=?" := nleb : py_scope.
Infix "<?" := nltb : py_scope.
Notation "x >? y" := (nltb y x) (at level 70) : py_scope.

(** *** Exact rationals *)

(** Nearest integer, ties to even. *)
Definition Zround_half_even (q : Q) : Z :=
  let f := Qfloor q in
  match Qcompare (q - inject_Z f) (1 # 2) with
  | Lt => f
  | Gt => (f + 1)%Z
  | Eq => if Z.even f then f else (f + 1)%Z
  end.

Fixpoint pow10 (k : nat) : positive :=
  match k with O => 1%positive | S k' => (10 * pow10 k')%positive end.

Definition Qlit (m : Z) (k : nat) : Q := m # pow10 k.

Definition Qround_digits (q : Q) (ndigits : nat) : Q :=
  Zround_half_even (q * inject_Z (Z.pos (pow10 ndigits))) # pow10 ndigits.

Definition Qltb (x y : Q) : bool := negb (Qle_bool y x).

#[export] Instance Q_float : PyFloat Q := {|
  lit := Qlit;
  nadd := Qplus; nsub := Qminus; nmul := Qmult; ndiv := Qdiv;
  nleb := Qle_bool; nltb := Qltb;
  truthy := fun x => negb (Qeq_bool x 0);
  round := Qround_digits;
|}.

(** *** IEEE binary64

    [PrimFloat] is the kernel's binary64 with round-to-nearest-even, the
    arithmetic of CPython's [float]. *)

Definition float_of_Z (z : Z) : float :=
  match z with
  | Z0 => PrimFloat.zero
  | Zpos _ => PrimFloat.of_uint63 (Uint63.of_Z z)
  | Zneg p => PrimFloat.opp (PrimFloat.of_uint63 (Uint63.of_Z (Zpos p)))
  end.

(** A literal [m / 10^k] with [m] and [10^k] below [2^53] is the correctly
    rounded quotient of two exact floats, the value the Python parser
    gives the same decimal. *)
Definition float_lit (m : Z) (k : nat) : float :=
  match k with
  | O => float_of_Z m
  | _ => PrimFloat.div (float_of_Z m) (float_of_Z (Z.pos (pow10 k)))
  end.

(** The exact rational value of a finite float. *)
Definition float_to_Q (x : float) : option Q :=
  match Prim2SF x with
  | S754_zero _ => Some 0%Q
  | S754_finite s m e =>
      let n := if s then Z.neg m else Z.pos m in
      Some (match e with
            | Z0 => inject_Z n
            | Zpos p => inject_Z (n * Z.pow 2 (Zpos p))
            | Zneg p => n # (Pos.pow 2 p)
            end)
  | _ => None
  end.

(** [round(x, ndigits)]: the exact value of [x] is rounded half-even to
    [ndigits] decimals and the decimal is converted back to the nearest
    float; infinities, NaN and values whose scaled magnitude reaches
    [2^53] (already integers at that scale) are returned unchanged, and a
    negative [x] that rounds to zero gives [-0.0]. *)
Definition float_round (x : float) (ndigits : nat) : float :=
  match float_to_Q x with
  | None => x
  | Some q =>
      let k := Zround_half_even (q * inject_Z (Z.pos (pow10 ndigits))) in
      if (Z.abs k >=? 2 ^ 53)%Z then x
      else if (k =? 0)%Z then (if PrimFloat.ltb x PrimFloat.zero
                               then PrimFloat.opp PrimFloat.zero
                               else PrimFloat.mul x PrimFloat.zero)
      else float_lit k ndigits
  end.

#[export] Instance binary64 : PyFloat float := {|
  lit := float_lit;
  nadd := PrimFloat.add; nsub := PrimFloat.sub;
  nmul := PrimFloat.mul; ndiv := PrimFloat.div;
  nleb := PrimFloat.leb; nltb := PrimFloat.ltb;
  truthy := fun x => negb (PrimFloat.eqb x PrimFloat.zero);
  round := float_round;
|}.

(* ================================================================== *)
(** ** [sorted(xs, key=...)]

    [sorted] copies its argument into a list and calls [list.sort], which
    computes the keys once and compares them with [<] only.  CPython 3.11
    sorts a list of fewer than 64 elements as one run: [count_run] takes
    the longest prefix that never steps down, or that steps down at every
    element and is then reversed, and [binarysort] moves each further
    element into the sorted prefix, to the slot a binary search finds
    after the elements that are not greater.  That is what is written
    here, for every length.  (From 64 elements on CPython cuts the list
    into such runs and merges them; on keys that [<] orders the result is
    the same list, the one stable arrangement, and no statement below
    depends on more.) *)

Section Sorted.
Context {X K : Type} (lt : K -> K -> bool) (key : X -> K).

(** [count_run], the loop of the ascending case: the elements taken
    until one is smaller than the one before it. *)
Fixpoint ascending_run (prev : X) (l : list X) : list X * list X :=
  match l with
  | [] => ([], [])
  | x :: l' =>
      if lt (key x) (key prev) then ([], l)
      else let '(run, rest) := ascending_run x l' in (x :: run, rest)
  end.

(** The loop of the descending case: the elements taken while each is
    smaller than the one before it. *)
Fixpoint descending_run (prev : X) (l : list X) : list X * list X :=
  match l with
  | [] => ([], [])
  | x :: l' =>
      if lt (key x) (key prev)
      then let '(run, rest) := descending_run x l' in (x :: run, rest)
      else ([], l)
  end.

(** [count_run] and the reversal of a descending run: the first run, in
    ascending order, and the elements after it. *)
Definition count_run (l : list X) : list X * list X :=
  match l with
  | [] => ([], [])
  | [x] => ([x], [])
  | x :: y :: l' =>
      if lt (key y) (key x)
      then let '(run, rest) := descending_run y l' in (rev (x :: y :: run), rest)
      else let '(run, rest) := ascending_run y l' in (x :: y :: run, rest)
  end.

(** The [do ... while (l < r)] of [binarysort] on the prefix [a]: the
    middle [p] of [a[l:r]] is compared with the pivot, which goes left of
    it when smaller and right of it otherwise.  The interval shrinks at
    every turn, so [r - l] turns are enough. *)
Fixpoint bisect (fuel : nat) (a : list X) (pivot : X) (l r : nat) : nat :=
  match fuel with
  | O => l
  | S fuel' =>
      let p := (l + Nat.div2 (r - l))%nat in
      let '(l, r) :=
        if lt (key pivot) (key (nth p a pivot)) then (l, p) else (S p, r) in
      if (l <? r)%nat then bisect fuel' a pivot l r else l
  end.

Definition insert_at (n : nat) (x : X) (a : list X) : list X :=
  firstn n a ++ x :: skipn n a.

(** One turn of the [for] loop of [binarysort]. *)
Definition binary_insert (a : list X) (pivot : X) : list X :=
  insert_at (bisect (length a) a pivot 0 (length a)) pivot a.

Definition binarysort (run rest : list X) : list X :=
  fold_left binary_insert rest run.

Definition sorted (l : list X) : list X :=
  let '(run, rest) := count_run l in binarysort run rest.
End Sorted.

(* ================================================================== *)
(** ** Phase 2: the order book *)

Section Book.
Context {A : Type} `{PyFloat A}.
Local Open Scope py_scope.

(** One level of the ladder: a JSON object whose ["price"] and ["size"]
    entries, when present, are read through [float(...)]. *)
Record level := Level { price : option A; size : option A }.

(** [order.get(k, d)] followed by [float]. *)
Definition get (field : option A) (default : A) : A :=
  match field with Some v => v | None => default end.

(** The body of the [for] loop of [walk_book]; [continue] is the
    recursive call on the rest, [break] returns. *)
Fixpoint walk_levels (levels : list level)
    (total_shares total_cost remaining : A) : A * A :=
  match levels with
  | [] => (total_shares, total_cost)
  | order :: rest =>
      let price := get (price order) (lit 0 0) in
      let size  := get (size order) (lit 0 0) in
      if (price <=? lit 0 0) || (size <=? lit 0 0) then
        walk_levels rest total_shares total_cost remaining
      else
        let level_cost := price * size in
        if level_cost <=? remaining then
          walk_levels rest (total_shares + size) (total_cost + level_cost)
                      (remaining - level_cost)
        else
          (total_shares + remaining / price, total_cost + remaining)
  end.

Definition sort_key (x : level) : A := get (price x) (lit 1 0).

Definition walk_book (asks : list level) (usdc_budget : A) : A * A :=
  walk_levels (sorted nltb sort_key asks) (lit 0 1) (lit 0 1) usdc_budget.

(** What [fetch_book] hands back, as the tests of line 200 tell it
    apart: a falsy answer; an object whose ["error"] entry is truthy, a
    text [String first rest] that is not empty; any other object, which
    is read as a book, its ["error"] entry absent or empty and a missing
    ["asks"] or ["bids"] reading as the empty list. *)
Inductive book_response :=
| NoResponse
| ErrorEnvelope (first : ascii) (rest : string)
| Book (asks bids : list level).

(** The object [{"error": e}] that [api_get] returns when the request
    fails with the text [e]: an error envelope when [e] is not empty, and
    otherwise an object like any other, without asks and bids. *)
Definition failed_request (e : string) : book_response :=
  match e with
  | EmptyString => Book [] []
  | String first rest => ErrorEnvelope first rest
  end.

(** The three messages [analyze_book] appends, with the numbers they
    interpolate. *)
Inductive warning :=
| BLOCKED (slippage limit : A)
| HighSlippage (slippage : A)
| InsufficientLiquidity (cost : A).

Record fill_estimate := FillEstimate {
  best_ask     : option A;
  best_bid     : option A;
  ask_depth    : A;
  shares       : A;
  actual_cost  : A;
  avg_price    : option A;
  slippage_pct : A;
  warnings     : list warning;
  blocked      : bool;
}.

Inductive analysis :=
| Estimate (e : fill_estimate)            (* (result, None) *)
| ClobError (message : string)            (* (None, "CLOB error: ...") *)
| KeyError (key : string).                (* o["price"] on a level without it *)

(** The module-level [cfg] as the functions below read it: the six
    settings, each at the type its schema entry declares. *)
Record config := Config {
  default_size       : A;
  order_type         : string;
  slippage_warn      : A;
  slippage_block     : A;
  min_time_remaining : Z;
  sig_type           : Z;
}.

(** The built-in defaults of [CONFIG_SCHEMA]. *)
Definition default_config : config :=
  {| default_size := lit 250 1; order_type := "GTC";
     slippage_warn := lit 30 1; slippage_block := lit 50 1;
     min_time_remaining := 30; sig_type := 1 |}.

(** [asks[0]["price"] if asks else None]; [None] is the [KeyError]. *)
Definition first_price (levels : list level) : option (option A) :=
  match levels with
  | [] => Some None
  | o :: _ => match price o with Some p => Some (Some p) | None => None end
  end.

(** [sum(float(o["price"]) * float(o["size"]) for o in asks)]; the
    result is [inl key] when a level lacks [key]. *)
Fixpoint depth_from (acc : A) (asks : list level) : string + A :=
  match asks with
  | [] => inr acc
  | o :: rest =>
      match price o, size o with
      | None, _ => inl "price"%string
      | Some _, None => inl "size"%string
      | Some p, Some s => depth_from (acc + p * s) rest
      end
  end.

(** [if a and b] on two optional floats. *)
Definition both (a b : option A) : option (A * A) :=
  match a, b with
  | Some x, Some y => if truthy x && truthy y then Some (x, y) else None
  | _, _ => None
  end.

Definition analyze (cfg : config) (asks : list level) (usdc_size : A)
    (best_ask best_bid : option A) (ask_depth : A) : fill_estimate :=
  let '(shares, cost) := walk_book asks usdc_size in
  let avg_price := if shares >? lit 0 0 then Some (cost / shares) else None in
  let slippage :=
    match both best_ask avg_price with
    | Some (best_ask, avg_price) =>
        round (((avg_price - best_ask) / best_ask) * lit 100 0) 2
    | None => lit 0 1
    end in
  let warnings := [] in
  let warnings :=
    if slippage >? slippage_block cfg then
      warnings ++ [BLOCKED slippage (slippage_block cfg)]
    else if slippage >? slippage_warn cfg then
      warnings ++ [HighSlippage slippage]
    else warnings in
  let warnings :=
    if cost <? usdc_size * lit 99 2 then
      warnings ++ [InsufficientLiquidity cost]
    else warnings in
  {| best_ask := best_ask;
     best_bid := best_bid;
     ask_depth := round ask_depth 2;
     shares := round shares 4;
     actual_cost := round cost 4;
     avg_price := match avg_price with
                  | Some a => if truthy a then Some (round a 4) else None
                  | None => None
                  end;
     slippage_pct := slippage;
     warnings := warnings;
     blocked := slippage >? slippage_block cfg |}.

Definition analyze_book (cfg : config) (fetch_book : string -> book_response)
    (token_id : string) (usdc_size : A) : analysis :=
  match fetch_book token_id with
  | NoResponse => ClobError "CLOB error: no response"
  | ErrorEnvelope first rest => ClobError ("CLOB error: " ++ String first rest)
  | Book asks bids =>
      match first_price asks with
      | None => KeyError "price"
      | Some best_ask =>
          match first_price bids with
          | None => KeyError "price"
          | Some best_bid =>
              match depth_from (lit 0 0) asks with
              | inl k => KeyError k
              | inr ask_depth =>
                  Estimate (analyze cfg asks usdc_size
                                    best_ask best_bid ask_depth)
              end
          end
      end
  end.
End Book.

Arguments level : clear implicits.
Arguments warning : clear implicits.
Arguments fill_estimate : clear implicits.
Arguments analysis : clear implicits.
Arguments config : clear implicits.
Arguments book_response : clear implicits.

(* ================================================================== *)
(** ** Phase 1: discovery *)

Definition SEARCH_STR : string := "bitcoin price 5".

(** [s.lower()] on the ASCII letters. *)
Definition lower_ascii (c : ascii) : ascii :=
  let n := nat_of_ascii c in
  if (65 <=? n)%nat && (n <=? 90)%nat then ascii_of_nat (n + 32) else c.

Fixpoint lower (s : string) : string :=
  match s with
  | EmptyString => EmptyString
  | String c s' => String (lower_ascii c) (lower s')
  end.

(** [needle in hay]. *)
Definition contains (needle hay : string) : bool :=
  match String.index 0 needle hay with Some _ => true | None => false end.

(** [a or b] on an optional string: the empty string is falsy. *)
Definition or_str (a : option string) (b : option string) : option string :=
  match a with
  | Some EmptyString | None => b
  | Some _ => a
  end.

Definition str_or_empty (a : option string) : string :=
  match a with Some s => s | None => EmptyString end.

(** [a or b or 0] on optional numbers, read through [float]. *)
Definition or_num (a b : option Q) : Q :=
  match a with
  | Some x => if Qeq_bool x 0 then
                match b with
                | Some y => if Qeq_bool y 0 then 0%Q else y
                | None => 0%Q
                end
              else x
  | None => match b with
            | Some y => if Qeq_bool y 0 then 0%Q else y
            | None => 0%Q
            end
  end.

(** An entry of ["outcomes"] that is an object. *)
Record outcome_obj := { clobTokenId : option string }.

(** The value under ["clobTokenIds"], and what [json.loads] makes of it
    when it is a text: nothing ([None]: the entry is absent or null), a
    list of identifiers, a text, an object with so many entries, or a
    number or boolean.  Identifiers are texts. *)
Inductive token_field :=
| NoTokenIds
| TokenList (ids : list string)
| TokenText (text : string)
| TokenObject (entries : nat)
| TokenScalar (truth : bool).

(** The value under ["outcomes"]: nothing, a list of objects, a list of
    names, or a text (the listings endpoint sends the names JSON-encoded
    in one). *)
Inductive outcomes_field :=
| NoOutcomes
| OutcomeObjects (os : list outcome_obj)
| OutcomeNames (names : list string)
| OutcomeText (text : string).

(** A market object of the listings endpoint. *)
Record market_obj := {
  question      : option string;
  title         : option string;
  endDate       : option string;
  end_date_iso  : option string;
  clobTokenIds  : token_field;
  outcomes      : outcomes_field;
  liquidityClob : option Q;
  liquidity     : option Q;
}.

(** The answer of [api_get(GAMMA_URL, ...)]: an object with an ["error"]
    entry, which is what [api_get] returns when the request fails, or a
    list of market objects. *)
Inductive listings :=
| GammaError (error : string)
| Markets (ms : list market_obj).

(** What [datetime.fromisoformat] returns.  A date with a UTC offset has
    a POSIX timestamp and a wall-clock reading, the text that
    [strftime("%H:%M:%S UTC")] prints.  A date without an offset has the
    timestamp of the same reading in local time, if the platform can give
    one, and cannot be subtracted from the aware [datetime.now]. *)
Inductive datetime :=
| Aware (timestamp : Q) (clock : string)
| Naive (timestamp : option Q).

(** What [discover] reads besides the listings: the two library parsers
    and the clock.  [fromisoformat] parses an ISO-8601 text (after ["Z"]
    is replaced) or fails; [json_loads] decodes a JSON text or fails. *)
Record library := {
  fromisoformat : string -> option datetime;
  json_loads    : string -> option token_field;
  utcnow        : Q;
}.

(** How [discover] ends without a record: with one of its three
    messages, or with an exception that it does not catch. *)
Inductive discover_error :=
| GammaApiError (error : string)
| NoActiveMarket
| MalformedMarket
| Uncaught (exception : string).

Definition error_message (e : discover_error) : string :=
  match e with
  | GammaApiError err => "Gamma API error: " ++ err
  | NoActiveMarket =>
      "No active Bitcoin 5-Min market found. Market may be between windows."
  | MalformedMarket => "Could not extract tokenIDs from market data"
  | Uncaught exception => exception
  end.

Record market := {
  m_title           : option string;
  yes_token         : string;
  no_token          : string;
  end_time          : string;
  seconds_remaining : Z;
  m_liquidity       : Q;
}.

(** [int(x)]: truncation towards zero. *)
Definition int_of_Q (q : Q) : Z := Z.quot (Qnum q) (Z.pos (Qden q)).

(** Keys of [matches.sort]: a timestamp, or [None] for [float("inf")]. *)
Definition ts_lt (a b : option Q) : bool :=
  match a, b with
  | Some x, Some y => Qltb x y
  | Some _, None => true
  | None, _ => false
  end.

Section Discovery.
Context (lib : library).

Definition raw_end (m : market_obj) : string :=
  str_or_empty (or_str (endDate m) (or_str (end_date_iso m) (Some EmptyString))).

(** [end_ts]: the timestamp, or [None] for [float("inf")] when the text
    does not parse or has no timestamp. *)
Definition end_ts (m : market_obj) : option Q :=
  match fromisoformat lib (raw_end m) with
  | Some (Aware timestamp _) => Some timestamp
  | Some (Naive timestamp) => timestamp
  | None => None
  end.

Definition is_match (m : market_obj) : bool :=
  contains SEARCH_STR
    (lower (str_or_empty (or_str (question m) (or_str (title m) (Some EmptyString))))).

(** [x or []]. *)
Definition or_empty_list (x : token_field) : token_field :=
  match x with
  | NoTokenIds | TokenText EmptyString | TokenObject O | TokenScalar false =>
      TokenList []
  | _ => x
  end.

(** [len(ids)]; [None] is the [TypeError] of a value that has no length. *)
Definition token_len (ids : token_field) : option nat :=
  match ids with
  | TokenList l => Some (length l)
  | TokenText text => Some (String.length text)
  | TokenObject entries => Some entries
  | NoTokenIds | TokenScalar _ => None
  end.

(** The characters of a text, as indexing gives them. *)
Fixpoint chars (s : string) : list string :=
  match s with
  | EmptyString => []
  | String c rest => String c EmptyString :: chars rest
  end.

(** [[o.get("clobTokenId", "") for o in outcomes]] on
    [m.get("outcomes") or []]: a name, and a character of a text, has no
    [get]. *)
Definition outcome_ids (outcomes : outcomes_field) : string + list string :=
  match outcomes with
  | NoOutcomes | OutcomeNames [] | OutcomeText EmptyString => inr []
  | OutcomeObjects os => inr (map (fun o => str_or_empty (clobTokenId o)) os)
  | OutcomeNames (_ :: _) | OutcomeText (String _ _) => inl "AttributeError"%string
  end.

(** Lines 139-150: the identifiers, from the ["clobTokenIds"] entry or,
    when that gives fewer than two, from the outcomes; or the exception
    raised on the way: [len] of a number or of [None], [get] on an
    outcome that is no object, [ids[0]] on an object. *)
Definition identifiers (m : market_obj) : string + list string :=
  let ids := or_empty_list (clobTokenIds m) in
  let ids :=
    match ids with
    | TokenText text =>
        match json_loads lib text with Some v => v | None => TokenList [] end
    | _ => ids
    end in
  match token_len ids with
  | None => inl "TypeError"%string
  | Some n =>
      if (n <? 2)%nat then outcome_ids (outcomes m)
      else match ids with
           | TokenList l => inr l
           | TokenText text => inr (chars text)
           | _ => inl "KeyError: 0"%string
           end
  end.

Definition discover (markets : listings) : discover_error + market :=
  match markets with
  | GammaError EmptyString =>
      (* the object passes line 118 and is iterated: its key has no [get] *)
      inl (Uncaught "AttributeError")
  | GammaError e => inl (GammaApiError e)
  | Markets ms =>
      match sorted ts_lt end_ts (List.filter is_match ms) with
      | [] => inl NoActiveMarket
      | m :: _ =>
          match identifiers m with
          | inl exception => inl (Uncaught exception)
          | inr (id0 :: id1 :: _) =>
              match id0 with
              | EmptyString => inl MalformedMarket
              | _ =>
                  let '(secs, end_str) :=
                    match fromisoformat lib (raw_end m) with
                    | Some (Aware end_dt clock) =>
                        (Z.max 0 (int_of_Q (end_dt - utcnow lib)), clock)
                    | Some (Naive _) | None => (999%Z, "unknown"%string)
                    end in
                  inr {| m_title := or_str (question m) (title m);
                         yes_token := id0;
                         no_token := id1;
                         end_time := end_str;
                         seconds_remaining := secs;
                         m_liquidity := or_num (liquidityClob m) (liquidity m) |}
              end
          | inr _ => inl MalformedMarket
          end
      end
  end.
End Discovery.

(* ================================================================== *)
(** ** Phase 3 and [run] *)

(** [s.upper()] on the ASCII letters. *)
Definition upper_ascii (c : ascii) : ascii :=
  let n := nat_of_ascii c in
  if (97 <=? n)%nat && (n <=? 122)%nat then ascii_of_nat (n - 32) else c.

Fixpoint upper (s : string) : string :=
  match s with
  | EmptyString => EmptyString
  | String c s' => String (upper_ascii c) (upper s')
  end.

Section Run.
Context {A : Type} `{PyFloat A}.

(** The parsed command line ([--set] is handled before [run]). *)
Record cli_args := {
  arg_live   : bool;
  arg_book   : bool;
  arg_orders : bool;
  arg_cancel : option string;
  arg_side   : option string;
  arg_price  : option A;
  arg_size   : option A;
  arg_type   : option string;
  arg_force  : bool;
  arg_config : bool;
}.

(** What the trading client answers to [post_order]. *)
Inductive order_response :=
| OrderRaised (error : string)
| OrderReply (orderID id status errorMsg : option string).

(** Everything outside the process that one invocation can reach. *)
Record world := {
  gamma        : listings;
  clob         : string -> book_response A;
  client_ready : bool;                       (* [get_client] returns *)
  open_orders  : string + nat;               (* error, or how many *)
  cancel_error : string -> option string;
  post_order   : order_response;
}.

(** What [run] prints, one constructor per message. *)
Inductive output :=
| OutConfig
| OutOrdersError (error : string)
| OutOrders (total : nat)
| OutCancelFailed (error : string)
| OutCancelled (order_id : string)
| OutDiscovering
| OutDiscoverError (message : string)
| OutMarket (m : market)
| OutWindowTooShort (secs min_t : Z)
| OutBookHeader (token_label : string) (size : A)
| OutBookError (message : string)
| OutBook (e : fill_estimate A)
| OutWarning (w : warning A)
| OutBlocked
| OutGtcNeedsPrice
| OutSummary (side token_label order_type : string) (price : option A) (size : A)
| OutDryRun
| OutPlacing
| OutOrderFailed (error : string)
| OutOrderResult (oid status : string) (errmsg : option string)
| OutOrderOk (status : string)
| OutUnexpectedStatus (status : string).

(** The effects of one invocation, in order. *)
Inductive event :=
| Print (o : output)
| GetClient
| ListOrders
| CancelOrder (order_id : string)
| Discover
| FetchBook (token_id : string)
| PlaceGTC (token_id side : string) (price size : A)
| PlaceFOK (token_id side : string) (usdc_amount : A)
| Exit (code : Z)
| Raise (exception : string).

Definition truthy_str (s : option string) : bool :=
  match s with Some (String _ _) => true | _ => false end.

Definition truthy_num (x : option A) : bool :=
  match x with Some v => truthy v | None => false end.

(** After [post_order] has answered. *)
Definition report_order (resp : order_response) : list event :=
  match resp with
  | OrderRaised e => [Print (OutOrderFailed e)]
  | OrderReply orderID id status errorMsg =>
      let oid := match or_str orderID (or_str id (Some "N/A"%string)) with
                 | Some s => s | None => "N/A"%string end in
      let status := match status with Some s => s | None => "UNKNOWN"%string end in
      [Print (OutOrderResult oid status
                (if truthy_str errorMsg then errorMsg else None))]
      ++ (if String.eqb status "MATCHED" || String.eqb status "LIVE"
          then [Print (OutOrderOk (lower status))]
          else [Print (OutUnexpectedStatus status)])
  end.

(** Phase 3 of [run], entered once the slippage gate is passed. *)
Definition execute (cfg : config A) (w : world) (args : cli_args)
    (side token token_label : string) (size : A) : list event :=
  if arg_book args then []
  else
    let order_type :=
      upper (if truthy_str (arg_type args)
             then str_or_empty (arg_type args) else order_type cfg) in
    if String.eqb order_type "GTC" && negb (truthy_num (arg_price args)) then
      [Print OutGtcNeedsPrice]
    else
      [Print (OutSummary side token_label order_type
                (if String.eqb order_type "GTC" then arg_price args else None) size)]
      ++ (if negb (arg_live args) then [Print OutDryRun]
          else
            [Print OutPlacing; GetClient]
            ++ (if negb (client_ready w) then [Exit 1]
                else
                  (if String.eqb order_type "GTC"
                   then match arg_price args with
                        | Some p => [PlaceGTC token side p size]
                        | None => []
                        end
                   else [PlaceFOK token side size])
                  ++ report_order (post_order w))).

(** Lines 361-364: the side, the token it selects and the notional. *)
Definition chosen_side (args : cli_args) : string :=
  upper (if truthy_str (arg_side args)
         then str_or_empty (arg_side args) else "BUY").

Definition chosen_token (args : cli_args) (m : market) : string :=
  if String.eqb (chosen_side args) "BUY" then yes_token m else no_token m.

Definition chosen_label (args : cli_args) : string :=
  if String.eqb (chosen_side args) "BUY" then "YES" else "NO".

Definition chosen_size (cfg : config A) (args : cli_args) : A :=
  if truthy_num (arg_size args)
  then match arg_size args with Some v => v | None => default_size cfg end
  else default_size cfg.

(** Phase 2 of [run], entered once the window gate is passed. *)
Definition price_book (cfg : config A) (w : world) (args : cli_args)
    (m : market) : list event :=
  let side := chosen_side args in
  let token := chosen_token args m in
  let token_label := chosen_label args in
  let size := chosen_size cfg args in
  [Print (OutBookHeader token_label size); FetchBook token]
  ++ match analyze_book cfg (clob w) token size with
     | KeyError k => [Raise ("KeyError: " ++ k)]
     | ClobError berr => [Print (OutBookError berr)]
     | Estimate book =>
         [Print (OutBook book)]
         ++ map (fun wn => Print (OutWarning wn)) (warnings book)
         ++ (if blocked book && negb (arg_force args) then [Print OutBlocked]
             else execute cfg w args side token token_label size)
     end.

Definition run (lib : library) (cfg : config A) (w : world) (args : cli_args)
    : list event :=
  if arg_config args then [Print OutConfig]
  else if arg_orders args then
    GetClient ::
    (if negb (client_ready w) then [Exit 1]
     else ListOrders ::
          match open_orders w with
          | inl EmptyString =>
              (* [{"error": ""}] passes line 317: one entry, a key without [get] *)
              [Print (OutOrders 1); Raise "AttributeError"]
          | inl e => [Print (OutOrdersError e)]
          | inr n => [Print (OutOrders n)]
          end)
  else if truthy_str (arg_cancel args) then
    GetClient ::
    (if negb (client_ready w) then [Exit 1]
     else let order_id := str_or_empty (arg_cancel args) in
          CancelOrder order_id ::
          match cancel_error w order_id with
          | Some (String _ _ as e) => [Print (OutCancelFailed e)]
          | Some EmptyString | None => [Print (OutCancelled order_id)]
          end)
  else
    [Print OutDiscovering; Discover]
    ++ match discover lib (gamma w) with
       | inl (Uncaught exception) => [Raise exception]
       | inl err => [Print (OutDiscoverError (error_message err))]
       | inr market =>
           let secs := seconds_remaining market in
           let min_t := min_time_remaining cfg in
           Print (OutMarket market) ::
           (if (secs <? min_t)%Z then [Print (OutWindowTooShort secs min_t)]
            else price_book cfg w args market)
       end.
End Run.

Arguments cli_args : clear implicits.
Arguments world : clear implicits.
Arguments output : clear implicits.
Arguments event : clear implicits.

(* ================================================================== *)
(** ** Configuration file

    [config.json] holds a flat JSON object.  Its numbers are rationals
    here; [json.dumps] followed by [json.loads] returns the value written. *)

Inductive value :=
| VFloat (x : Q)
| VInt (n : Z)
| VStr (s : string).

Inductive schema_type := TFloat | TStr | TInt.

Record schema_entry := {
  s_default : value;
  s_env     : string;
  s_type    : schema_type;
}.

Definition CONFIG_SCHEMA : list (string * schema_entry) :=
  [ ("default_size"%string,
       {| s_default := VFloat 25; s_env := "POLY_DEFAULT_SIZE"; s_type := TFloat |});
    ("order_type"%string,
       {| s_default := VStr "GTC"; s_env := "POLY_ORDER_TYPE"; s_type := TStr |});
    ("slippage_warn"%string,
       {| s_default := VFloat 3; s_env := "POLY_SLIPPAGE_WARN"; s_type := TFloat |});
    ("slippage_block"%string,
       {| s_default := VFloat 5; s_env := "POLY_SLIPPAGE_BLOCK"; s_type := TFloat |});
    ("min_time_remaining"%string,
       {| s_default := VInt 30; s_env := "POLY_MIN_TIME"; s_type := TInt |});
    ("sig_type"%string,
       {| s_default := VInt 1; s_env := "POLY_SIG_TYPE"; s_type := TInt |}) ].

Fixpoint schema_lookup (k : string) (schema : list (string * schema_entry))
    : option schema_entry :=
  match schema with
  | [] => None
  | (k', e) :: rest => if String.eqb k k' then Some e else schema_lookup k rest
  end.

(** The state of [config.json]: absent, not parseable, or an object. *)
Inductive config_file :=
| NoFile
| NotJson
| JsonObject (entries : gmap string value).

(** [json.loads(cfg_path.read_text())] under [try], from [{}]. *)
Definition read_entries (f : config_file) : gmap string value :=
  match f with JsonObject m => m | _ => ∅ end.

(** [item.split("=", 1)] when ["=" in item]. *)
Fixpoint split_eq (item : string) : option (string * string) :=
  match item with
  | EmptyString => None
  | String c rest =>
      if Ascii.eqb c "="%char then Some (EmptyString, rest)
      else match split_eq rest with
           | Some (k, v) => Some (String c k, v)
           | None => None
           end
  end.

Inductive set_outcome :=
| ConfigUpdated (updates : gmap string value)     (* exit 0 *)
| InvalidSetFormat (item : string)                (* exit 1 *)
| UnknownKey (k : string)                         (* exit 1 *)
| CoercionRaised (k v : string).                  (* ValueError *)

Section ConfigFile.
(** [float(text)] and [int(text)]: the number, or [None] for [ValueError]. *)
Context (py_float : string -> option Q) (py_int : string -> option Z).

(** [t(raw)] for the [type] of a schema entry. *)
Definition coerce (t : schema_type) (raw : string) : option value :=
  match t with
  | TFloat => VFloat <$> py_float raw
  | TStr => Some (VStr raw)
  | TInt => VInt <$> py_int raw
  end.

Definition resolve (file_cfg : gmap string value) (environ : gmap string string)
    (k : string) (spec : schema_entry) : value :=
  match file_cfg !! k with
  | Some v => v
  | None =>
      match s_env spec, environ !! s_env spec with
      | String _ _, Some (String _ _ as raw) =>
          match coerce (s_type spec) raw with
          | Some v => v
          | None => s_default spec
          end
      | _, _ => s_default spec
      end
  end.

Definition load_config (f : config_file) (environ : gmap string string)
    : gmap string value :=
  let file_cfg := read_entries f in
  fold_left (fun out '(k, spec) => <[k := resolve file_cfg environ k spec]> out)
            CONFIG_SCHEMA ∅.

(** Returns the new file and the merged object. *)
Definition update_config (f : config_file) (updates : gmap string value)
    : config_file * gmap string value :=
  let existing := updates ∪ read_entries f in
  (JsonObject existing, existing).

(** The loop over [args.set]. *)
Fixpoint collect_updates (items : list string) (updates : gmap string value)
    : set_outcome :=
  match items with
  | [] => ConfigUpdated updates
  | item :: rest =>
      match split_eq item with
      | None => InvalidSetFormat item
      | Some (k, v) =>
          match schema_lookup k CONFIG_SCHEMA with
          | None => UnknownKey k
          | Some spec =>
              match coerce (s_type spec) v with
              | None => CoercionRaised k v
              | Some x => collect_updates rest (<[k := x]> updates)
              end
          end
      end
  end.

(** The body of [if args.set:], entered with at least one [KEY=VALUE]
    item: the outcome and the file afterwards. *)
Definition set_config (items : list string) (f : config_file)
    : set_outcome * config_file :=
  match collect_updates items ∅ with
  | ConfigUpdated updates => (ConfigUpdated updates, fst (update_config f updates))
  | refused => (refused, f)
  end.
End ConfigFile.

(* ================================================================== *)
(** ** Vocabulary of the statements *)

(** Laws of a key comparison on the keys that satisfy [P]. *)
Record strict_weak_on {K : Type} (P : K -> Prop) (lt : K -> K -> bool) : Prop := {
  swo_asym : forall a b, P a -> P b -> lt a b = true -> lt b a = false;
  swo_negtrans : forall a b c, P a -> P b -> P c ->
      lt a c = true -> lt a b = true \/ lt b c = true;
}.

Section SortedSpec.
Context {X K : Type} (lt : K -> K -> bool) (key : X -> K).

(** The stable sort, as a reference: each element, from the last to the
    first, is inserted in front of the first element whose key is not
    smaller. *)
Fixpoint insert_sorted (x : X) (l : list X) : list X :=
  match l with
  | [] => [x]
  | y :: l' => if lt (key y) (key x) then y :: insert_sorted x l'
               else x :: y :: l'
  end.

Definition stable_sort (l : list X) : list X := fold_right insert_sorted [] l.

(** Insertion after the elements that are not greater. *)
Fixpoint insert_last (x : X) (l : list X) : list X :=
  match l with
  | [] => [x]
  | y :: l' => if lt (key x) (key y) then x :: y :: l'
               else y :: insert_last x l'
  end.

(** [ascending l]: no element has a key smaller than one before it. *)
Definition ascending (l : list X) : Prop :=
  StronglySorted (fun x y => lt (key y) (key x) = false) l.

(** Two lists that differ by exchanging neighbours of equivalent keys. *)
Inductive tie_perm : list X -> list X -> Prop :=
| tie_nil : tie_perm [] []
| tie_skip x l l' : tie_perm l l' -> tie_perm (x :: l) (x :: l')
| tie_swap x y l :
    lt (key x) (key y) = false -> lt (key y) (key x) = false ->
    tie_perm (x :: y :: l) (y :: x :: l)
| tie_trans l l' l'' : tie_perm l l' -> tie_perm l' l'' -> tie_perm l l''.

(** No two levels of [l] have equivalent keys. *)
Definition untied (l : list X) : Prop :=
  ForallOrdPairs
    (fun x y => lt (key x) (key y) = true \/ lt (key y) (key x) = true) l.

End SortedSpec.

Section ValidLevel.
Context {A : Type} `{PyFloat A}.
Local Open Scope py_scope.

(** The levels the loop does not skip. *)
Definition valid (o : level A) : bool :=
  negb ((get (price o) (lit 0 0) <=? lit 0 0) || (get (size o) (lit 0 0) <=? lit 0 0)).

End ValidLevel.

Local Open Scope Q_scope.

(** Price, size and notional of a level as the loop reads them. *)
Definition price_of (o : level Q) : Q := get (price o) 0.
Definition size_of (o : level Q) : Q := get (size o) 0.
Definition notional (o : level Q) : Q := price_of o * size_of o.

Definition positive_level (o : level Q) : Prop := 0 < price_of o /\ 0 < size_of o.

(** Total notional and total size of a ladder. *)
Definition depth (l : list (level Q)) : Q :=
  fold_right (fun o acc => notional o + acc) 0 l.
Definition total_size (l : list (level Q)) : Q :=
  fold_right (fun o acc => size_of o + acc) 0 l.

(** Equality of two (shares, cost) pairs as rationals. *)
Definition Qeq2 (p q : Q * Q) : Prop := fst p == fst q /\ snd p == snd q.

(** The book of the worked example: 20 shares at 0.50, 30 at 0.55. *)
Definition example_asks {A : Type} `{PyFloat A} : list (level A) :=
  [ {| price := Some (lit 50 2); size := Some (lit 20 0) |};
    {| price := Some (lit 55 2); size := Some (lit 30 0) |} ].

Definition example_estimate {A : Type} `{PyFloat A} : fill_estimate A :=
  {| best_ask := Some (lit 50 2);
     best_bid := None;
     ask_depth := lit 2650 2;
     shares := lit 381818 4;
     actual_cost := lit 200000 4;
     avg_price := Some (lit 5238 4);
     slippage_pct := lit 476 2;
     warnings := [HighSlippage (lit 476 2)];
     blocked := false |}.

Section VerdictSpec.
Context {A : Type} `{PyFloat A}.
Local Open Scope py_scope.

(** The slippage part and the liquidity part of the warnings list. *)
Definition slippage_warnings (cfg : config A) (slippage : A) : list (warning A) :=
  if slippage >? slippage_block cfg then [BLOCKED slippage (slippage_block cfg)]
  else if slippage >? slippage_warn cfg then [HighSlippage slippage]
  else [].

Definition liquidity_warnings (cost usdc_size : A) : list (warning A) :=
  if cost <? usdc_size * lit 99 2 then [InsufficientLiquidity cost] else [].

Definition is_BLOCKED (w : warning A) : bool :=
  match w with BLOCKED _ _ => true | _ => false end.

Definition is_insufficient (w : warning A) : bool :=
  match w with InsufficientLiquidity _ => true | _ => false end.

End VerdictSpec.

(** Three levels at one price, and a book given best price last. *)
Definition tied_asks : list (level float) :=
  [ {| price := Some (lit 1 0); size := Some (lit 1 1) |};
    {| price := Some (lit 1 0); size := Some (lit 2 1) |};
    {| price := Some (lit 1 0); size := Some (lit 3 1) |} ].

Definition descending_asks {A : Type} `{PyFloat A} : list (level A) :=
  [ {| price := Some (lit 55 2); size := Some (lit 30 0) |};
    {| price := Some (lit 50 2); size := Some (lit 20 0) |} ].

Definition descending_estimate {A : Type} `{PyFloat A} : fill_estimate A :=
  {| best_ask := Some (lit 55 2);
     best_bid := None;
     ask_depth := lit 2650 2;
     shares := lit 381818 4;
     actual_cost := lit 200000 4;
     avg_price := Some (lit 5238 4);
     slippage_pct := lit (-476) 2;
     warnings := [];
     blocked := false |}.

Definition empty_book_estimate {A : Type} `{PyFloat A} : fill_estimate A :=
  {| best_ask := None;
     best_bid := None;
     ask_depth := lit 0 2;
     shares := lit 0 4;
     actual_cost := lit 0 4;
     avg_price := None;
     slippage_pct := lit 0 1;
     warnings := [InsufficientLiquidity (lit 0 1)];
     blocked := false |}.

(** A configuration whose block threshold the worked example exceeds. *)
Definition strict_config {A : Type} `{PyFloat A} : config A :=
  {| default_size := lit 250 1; order_type := "FOK";
     slippage_warn := lit 10 1; slippage_block := lit 40 1;
     min_time_remaining := 30; sig_type := 1 |}.

Definition example_blocked {A : Type} `{PyFloat A} : fill_estimate A :=
  {| best_ask := Some (lit 50 2);
     best_bid := None;
     ask_depth := lit 2650 2;
     shares := lit 381818 4;
     actual_cost := lit 200000 4;
     avg_price := Some (lit 5238 4);
     slippage_pct := lit 476 2;
     warnings := [BLOCKED (lit 476 2) (lit 40 1)];
     blocked := true |}.

(** A ladder with two malformed levels among the example's two. *)
Definition ragged_asks {A : Type} `{PyFloat A} : list (level A) :=
  [ {| price := Some (lit 55 2); size := Some (lit 30 0) |};
    {| price := Some (lit 0 0);  size := Some (lit 5 0) |};
    {| price := Some (lit 50 2); size := Some (lit 20 0) |};
    {| price := None;            size := Some (lit 7 0) |};
    {| price := Some (lit 60 2); size := Some (lit (-1) 0) |} ].

(** No sort key of the ladder is NaN. *)
Definition keys_ordered (asks : list (level float)) : Prop :=
  Forall (fun o => PrimFloat.is_nan (sort_key o) = false) asks.

(** A book on which binary64 rounds the average fill price below the
    first ask, and what [analyze_book] reports for a budget of 25. *)
Definition rounding_asks : list (level float) :=
  [ {| price := Some (lit 68 2); size := Some (lit 1000 0) |};
    {| price := Some (lit 99 2); size := Some (lit 1000 0) |} ].

Definition rounding_estimate : fill_estimate float :=
  {| best_ask := Some 0.68%float;
     best_bid := None;
     ask_depth := 1670%float;
     shares := 36.7647%float;
     actual_cost := 25%float;
     avg_price := Some 0.68%float;
     slippage_pct := (-0)%float;
     warnings := [];
     blocked := false |}.

(** A ladder with a level whose price is NaN (JSON [NaN], or the text
    ["nan"]) and one malformed level, of size zero, listed before it. *)
Definition nan_asks : list (level float) :=
  [ {| price := Some (lit 50 2);    size := Some (lit 100 0) |};
    {| price := Some (lit 45 2);    size := Some (lit 0 0) |};
    {| price := Some PrimFloat.nan; size := Some (lit 100 0) |};
    {| price := Some (lit 40 2);    size := Some (lit 100 0) |} ].

(** The identifiers of a market, when reading them raises nothing. *)
Definition token_ids (lib : library) (m : market_obj) : list string :=
  match identifiers lib m with
  | inr ids => ids
  | inl _ => []
  end.

(** A library whose clock reads 1000 and whose ISO parser places every
    non-empty text at 1010, ten seconds ahead, and rejects the empty one. *)
Definition ten_seconds_left : library :=
  {| fromisoformat := fun s => match s with
                               | EmptyString => None
                               | _ => Some (Aware (1010 # 1) "00:16:50 UTC")
                               end;
     json_loads := fun _ => None;
     utcnow := 1000 # 1 |}.

(** A matching market whose second identifier is empty, and one whose
    identifiers come from the outcome objects, the second lacking one. *)
Definition half_listed : market_obj :=
  {| question := Some "Bitcoin Price 5 Minute: Up or Down?"%string;
     title := None;
     endDate := None;
     end_date_iso := None;
     clobTokenIds := TokenList ["7131"%string; ""%string];
     outcomes := NoOutcomes;
     liquidityClob := None;
     liquidity := None |}.

Definition half_outcomes : market_obj :=
  {| question := None;
     title := Some "bitcoin price 5 min"%string;
     endDate := Some "2026-01-01T00:05:00Z"%string;
     end_date_iso := None;
     clobTokenIds := NoTokenIds;
     outcomes := OutcomeObjects [ {| clobTokenId := Some "7131"%string |};
                                  {| clobTokenId := None |} ];
     liquidityClob := None;
     liquidity := Some (1500 # 1) |}.

(** A well-formed market of the same family. *)
Definition listed : market_obj :=
  {| question := Some "Bitcoin Price 5 Minute: Up or Down?"%string;
     title := None;
     endDate := Some "2026-01-01T00:05:00Z"%string;
     end_date_iso := None;
     clobTokenIds := TokenList ["7131"%string; "7132"%string];
     outcomes := NoOutcomes;
     liquidityClob := Some (1500 # 1);
     liquidity := None |}.

Definition listed_window : market :=
  {| m_title := Some "Bitcoin Price 5 Minute: Up or Down?"%string;
     yes_token := "7131";
     no_token := "7132";
     end_time := "00:16:50 UTC";
     seconds_remaining := 10;
     m_liquidity := 1500 # 1 |}.

Section RunSpec.
Context {A : Type} `{PyFloat A}.

(** The events that price a book or place an order. *)
Definition touches_market (ev : event A) : bool :=
  match ev with
  | FetchBook _ | PlaceGTC _ _ _ _ | PlaceFOK _ _ _ => true
  | _ => false
  end.

Definition with_force (b : bool) (args : cli_args A) : cli_args A :=
  {| arg_live := arg_live args; arg_book := arg_book args;
     arg_orders := arg_orders args; arg_cancel := arg_cancel args;
     arg_side := arg_side args; arg_price := arg_price args;
     arg_size := arg_size args; arg_type := arg_type args;
     arg_force := b; arg_config := arg_config args |}.

(** [--live --side BUY --size 25 --type FOK], with or without [--force]. *)
Definition live_fok (force : bool) : cli_args A :=
  {| arg_live := true; arg_book := false; arg_orders := false;
     arg_cancel := None; arg_side := Some "BUY"%string; arg_price := None;
     arg_size := Some (lit 25 0); arg_type := Some "FOK"%string;
     arg_force := force; arg_config := false |}.

(** A world whose listing holds [listed] and whose book is the worked
    example. *)
Definition example_world : world A :=
  {| gamma := Markets [listed];
     clob := fun _ => Book example_asks [];
     client_ready := true;
     open_orders := inr 0%nat;
     cancel_error := fun _ => None;
     post_order := OrderReply (Some "0xabc"%string) None (Some "MATCHED"%string) None |}.
End RunSpec.

(** The same library two minutes before the close. *)
Definition two_minutes_left : library :=
  {| fromisoformat := fromisoformat ten_seconds_left;
     json_loads := json_loads ten_seconds_left;
     utcnow := 890 # 1 |}.

(** [int] and [float] on the texts that are unsigned decimal integers,
    the fragment the examples use; other texts are refused here, although
    Python reads more of them (signs, fractions, exponents). *)
Fixpoint parse_digits (s : string) (acc : Z) : option Z :=
  match s with
  | EmptyString => Some acc
  | String c s' =>
      let n := Z.of_nat (nat_of_ascii c) in
      if ((48 <=? n) && (n <=? 57))%Z then parse_digits s' (10 * acc + (n - 48))%Z
      else None
  end.

Definition int_literal (s : string) : option Z :=
  match s with EmptyString => None | _ => parse_digits s 0 end.

(** The binary64 nearest to a natural number, ties to even: the number
    itself below [2^53], and otherwise its 53 leading bits, rounded. *)
Definition nearest_binary64 (n : Z) : Z :=
  if (n <? 2 ^ 53)%Z then n
  else
    let e := (Z.log2 n - 52)%Z in
    let q := Z.shiftr n e in
    let r := (n - Z.shiftl q e)%Z in
    let half := Z.shiftl 1 (e - 1) in
    let q := if (half <? r)%Z || ((r =? half)%Z && Z.odd q) then (q + 1)%Z else q in
    Z.shiftl q e.

(** [float] of a decimal integer is the nearest binary64; from
    [2^1024 - 2^970] on that is [inf], which the rationals do not hold. *)
Definition float_literal (s : string) : option Q :=
  match int_literal s with
  | Some n =>
      if (n <? 2 ^ 1024 - 2 ^ 970)%Z then Some (inject_Z (nearest_binary64 n))
      else None
  | None => None
  end.

(** A book [analyze_book] can read without a [KeyError]: every ask has a
    price and a size, and the first bid, if any, has a price. *)
Definition has_field {A : Type} (field : option A) : bool :=
  match field with Some _ => true | None => false end.

Definition complete_book {A : Type} (asks bids : list (level A)) : bool :=
  forallb (fun o => has_field (price o) && has_field (size o)) asks
  && match bids with
     | [] => true
     | b :: _ => has_field (price b)
     end.

Definition is_high_slippage {A : Type} (w : warning A) : bool :=
  match w with HighSlippage _ => true | _ => false end.

(** A ladder none of whose levels the walk can use. *)
Definition useless_asks {A : Type} `{PyFloat A} : list (level A) :=
  [ {| price := Some (lit 0 0);  size := Some (lit 5 0) |};
    {| price := None;            size := Some (lit 7 0) |};
    {| price := Some (lit 60 2); size := Some (lit (-1) 0) |};
    {| price := Some (lit 60 2); size := None |} ].

(** Two matching markets: the one listed first closes later and is well
    formed, the one listed second closes first and has one identifier. *)
Definition later_listed : market_obj :=
  {| question := Some "Bitcoin Price 5 Minute: Up or Down?"%string;
     title := None;
     endDate := Some "later"%string;
     end_date_iso := None;
     clobTokenIds := TokenList ["7131"%string; "7132"%string];
     outcomes := NoOutcomes;
     liquidityClob := None;
     liquidity := None |}.

Definition sooner_malformed : market_obj :=
  {| question := Some "Bitcoin Price 5 Minute: Up or Down?"%string;
     title := None;
     endDate := Some "sooner"%string;
     end_date_iso := None;
     clobTokenIds := TokenList ["7141"%string];
     outcomes := NoOutcomes;
     liquidityClob := None;
     liquidity := None |}.

Definition sooner_listed : market_obj :=
  {| question := None;
     title := Some "BITCOIN PRICE 5 MINUTE"%string;
     endDate := None;
     end_date_iso := Some "sooner"%string;
     clobTokenIds := TokenList ["7151"%string; "7152"%string; "7153"%string];
     outcomes := NoOutcomes;
     liquidityClob := None;
     liquidity := None |}.

(** A library that places ["sooner"] at 1100, any other non-empty text at
    1400, and reads the clock at 1000. *)
Definition two_ends : library :=
  {| fromisoformat := fun s => match s with
                               | EmptyString => None
                               | _ => if String.eqb s "sooner"
                                      then Some (Aware (1100 # 1) "00:18:20 UTC")
                                      else Some (Aware (1400 # 1) "00:23:20 UTC")
                               end;
     json_loads := fun _ => None;
     utcnow := 1000 # 1 |}.


(** The four digits between double quotes, a JSON text. *)
Definition quoted_7131 : string :=
  String (ascii_of_nat 34) ("7131" ++ String (ascii_of_nat 34) EmptyString).

(** The library of [two_ends] with a JSON decoder that reads the digits
    [7131] as the number and the same digits between quotes as the text. *)
Definition decoding : library :=
  {| fromisoformat := fromisoformat two_ends;
     json_loads := fun s => if String.eqb s "7131" then Some (TokenScalar true)
                            else if String.eqb s quoted_7131 then Some (TokenText "7131")
                            else None;
     utcnow := utcnow two_ends |}.

(** Three matching markets: identifiers given as the text of a number;
    no identifiers and outcomes given by name; identifiers given as a
    quoted text. *)
Definition number_text : market_obj :=
  {| question := Some "Bitcoin Price 5 Minute: Up or Down?"%string;
     title := None;
     endDate := Some "sooner"%string;
     end_date_iso := None;
     clobTokenIds := TokenText "7131";
     outcomes := NoOutcomes;
     liquidityClob := None;
     liquidity := None |}.

Definition named_outcomes : market_obj :=
  {| question := Some "Bitcoin Price 5 Minute: Up or Down?"%string;
     title := None;
     endDate := Some "sooner"%string;
     end_date_iso := None;
     clobTokenIds := NoTokenIds;
     outcomes := OutcomeNames ["Up"%string; "Down"%string];
     liquidityClob := None;
     liquidity := None |}.

Definition quoted_text : market_obj :=
  {| question := Some "Bitcoin Price 5 Minute: Up or Down?"%string;
     title := None;
     endDate := Some "sooner"%string;
     end_date_iso := None;
     clobTokenIds := TokenText quoted_7131;
     outcomes := NoOutcomes;
     liquidityClob := None;
     liquidity := None |}.

(** ["=" in s]. *)
Fixpoint has_eq (s : string) : bool :=
  match s with
  | EmptyString => false
  | String c rest => Ascii.eqb c "="%char || has_eq rest
  end.

(** An item the [--set] loop takes: it has an ["="], its key is in the
    schema and its value converts to the key's type. *)
Definition accepted (py_float : string -> option Q) (py_int : string -> option Z)
    (item : string) : bool :=
  match split_eq item with
  | None => false
  | Some (k, v) =>
      match schema_lookup k CONFIG_SCHEMA with
      | None => false
      | Some spec => has_field (coerce py_float py_int (s_type spec) v)
      end
  end.

(* ------------------------------------------------------------------ *)
(** [place_gtc] and [place_fok]: the calls they make on the client. *)

Inductive side_const := BUY | SELL.
Inductive order_kind := GTC | FOK.

Section Placement.
Context {A : Type} `{PyFloat A}.

Inductive client_call :=
| CreateOrder (token_id : string) (price size : A) (side : side_const)
| CreateMarketOrder (token_id : string) (amount : A) (side : side_const)
                    (order_type : order_kind)
| PostOrder (kind : order_kind).

(** [BUY if side == "BUY" else SELL]. *)
Definition side_c (side : string) : side_const :=
  if String.eqb side "BUY" then BUY else SELL.

Definition place_gtc (token_id side : string) (price size : A) : list client_call :=
  [CreateOrder token_id price size (side_c side); PostOrder GTC].

Definition place_fok (token_id side : string) (usdc_amount : A) : list client_call :=
  [CreateMarketOrder token_id usdc_amount (side_c side) FOK; PostOrder FOK].

(** The client calls behind an event of [run]. *)
Definition client_calls (ev : event A) : list client_call :=
  match ev with
  | PlaceGTC token_id side price size => place_gtc token_id side price size
  | PlaceFOK token_id side usdc_amount => place_fok token_id side usdc_amount
  | _ => []
  end.

Definition is_order (ev : event A) : bool :=
  match ev with PlaceGTC _ _ _ _ | PlaceFOK _ _ _ => true | _ => false end.

Definition is_fetch (ev : event A) : bool :=
  match ev with FetchBook _ => true | _ => false end.

Definition is_discover (ev : event A) : bool :=
  match ev with Discover => true | _ => false end.

Definition is_get_client (ev : event A) : bool :=
  match ev with GetClient => true | _ => false end.

(** The events that need no trading client: what is printed, the two
    public queries, and an exception that is passed on. *)
Definition read_only (ev : event A) : bool :=
  match ev with
  | Print _ | Discover | FetchBook _ | Raise _ => true
  | _ => false
  end.

(** Line 390: the order type in force. *)
Definition chosen_order_type (cfg : config A) (args : cli_args A) : string :=
  upper (if truthy_str (arg_type args)
         then str_or_empty (arg_type args) else order_type cfg).

(** A market order without [--live]. *)
Definition dry_run_fok : cli_args A :=
  {| arg_live := false; arg_book := false; arg_orders := false;
     arg_cancel := None; arg_side := Some "SELL"%string; arg_price := None;
     arg_size := None; arg_type := None;
     arg_force := true; arg_config := false |}.
End Placement.

Arguments client_call : clear implicits.

(* ================================================================== *)
(** ** The stable sort *)

Section SortedFacts.
Context {X K : Type} (lt : K -> K -> bool) (key : X -> K).
Context (P : K -> Prop) (Hlt : strict_weak_on P lt).

Local Abbreviation ins := (insert_sorted lt key).
Local Abbreviation srt := (stable_sort lt key).
Local Abbreviation keys_in l := (Forall (fun x => P (key x)) l).
Local Abbreviation not_before x := (fun z => lt (key z) (key x) = false).

Lemma insert_sorted_perm (x : X) (l : list X) : Permutation (ins x l) (x :: l).
Proof.
  induction l as [|y l IH]; simpl; [reflexivity|].
  destruct (lt (key y) (key x)); [|reflexivity].
  rewrite IH. apply perm_swap.
Qed.

Lemma stable_sort_perm (l : list X) : Permutation (srt l) l.
Proof.
  induction l as [|x l IH]; simpl; [reflexivity|].
  rewrite insert_sorted_perm. now constructor.
Qed.

Lemma lt_irrefl a : P a -> lt a a = false.
Proof using Hlt.
  intros Ha. destruct (lt a a) eqn:E; [|reflexivity].
  now rewrite (swo_asym _ _ Hlt a a Ha Ha E) in E.
Qed.

Lemma not_lt_trans a b c : P a -> P b -> P c ->
  lt b a = false -> lt c b = false -> lt c a = false.
Proof using Hlt.
  intros Ha Hb Hc H1 H2. destruct (lt c a) eqn:E; [|reflexivity].
  destruct (swo_negtrans _ _ Hlt c b a Hc Hb Ha E); congruence.
Qed.

Lemma insert_sorted_keys x l : P (key x) -> keys_in l -> keys_in (ins x l).
Proof.
  intros Hx Hl. eapply Permutation_Forall.
  - symmetry. apply insert_sorted_perm.
  - now constructor.
Qed.

Lemma stable_sort_keys l : keys_in l -> keys_in (srt l).
Proof.
  intros Hl. eapply Permutation_Forall; [symmetry; apply stable_sort_perm|exact Hl].
Qed.

Lemma insert_sorted_ascending x l :
  P (key x) -> keys_in l -> ascending lt key l -> ascending lt key (ins x l).
Proof using Hlt.
  intros Hx Hl Hs. induction Hs as [|y l Hs IH Hy]; simpl.
  - repeat constructor.
  - inversion Hl as [|? ? Py Hl']; subst.
    destruct (lt (key y) (key x)) eqn:E.
    + constructor; [now apply IH|].
      eapply Permutation_Forall; [symmetry; apply insert_sorted_perm|].
      constructor; [|exact Hy].
      now apply (swo_asym _ _ Hlt).
    + constructor; [now constructor|].
      constructor; [exact E|].
      rewrite List.Forall_forall in *. intros z Hz.
      apply (not_lt_trans _ (key y)); auto.
Qed.

Lemma stable_sort_ascending l : keys_in l -> ascending lt key (srt l).
Proof using Hlt.
  induction 1 as [|x l Hx Hl IH]; simpl; [constructor|].
  apply insert_sorted_ascending; auto using stable_sort_keys.
Qed.

(** Inserting in front of elements that are all not smaller. *)
Lemma insert_sorted_head x l :
  Forall (not_before x) l -> ins x l = x :: l.
Proof.
  destruct l as [|y l]; simpl; [reflexivity|].
  intros Hl. inversion Hl; subst. now rewrite H1.
Qed.

Lemma filter_insert_sorted (f : X -> bool) x l :
  P (key x) -> keys_in l -> ascending lt key l ->
  List.filter f (ins x l) =
  if f x then ins x (List.filter f l) else List.filter f l.
Proof using Hlt.
  intros Hx Hl Hs. induction Hs as [|y l Hs IH Hy]; simpl.
  - now destruct (f x).
  - inversion Hl as [|? ? Py Hl']; subst.
    destruct (lt (key y) (key x)) eqn:E; simpl.
    + rewrite (IH Hl'). destruct (f y), (f x); simpl; rewrite ?E; reflexivity.
    + destruct (f x) eqn:Fx, (f y) eqn:Fy; simpl; rewrite ?Fx, ?Fy, ?E; try reflexivity.
      symmetry. apply insert_sorted_head.
      rewrite List.Forall_forall in *. intros z Hz.
      apply filter_In in Hz as [Hz _].
      apply (not_lt_trans _ (key y)); auto.
Qed.

Lemma filter_stable_sort (f : X -> bool) l :
  keys_in l -> List.filter f (srt l) = srt (List.filter f l).
Proof using Hlt.
  induction 1 as [|x l Hx Hl IH]; simpl; [reflexivity|].
  rewrite filter_insert_sorted; auto using stable_sort_keys, stable_sort_ascending.
  destruct (f x); simpl; now rewrite IH.
Qed.

Lemma tie_perm_refl l : tie_perm lt key l l.
Proof. induction l; now constructor. Qed.

Lemma tie_perm_Permutation l l' : tie_perm lt key l l' -> Permutation l l'.
Proof.
  induction 1; [constructor|now constructor|apply perm_swap|etransitivity; eauto].
Qed.

Lemma lt_equiv_l x y z : P x -> P y -> P z ->
  lt y z = false -> lt z y = false -> lt y x = lt z x.
Proof using Hlt.
  intros Hx Hy Hz H1 H2.
  destruct (lt y x) eqn:E1, (lt z x) eqn:E2; try reflexivity.
  - destruct (swo_negtrans _ _ Hlt y z x Hy Hz Hx E1); congruence.
  - destruct (swo_negtrans _ _ Hlt z y x Hz Hy Hx E2); congruence.
Qed.

Lemma insert_sorted_tie x l l' :
  P (key x) -> keys_in l -> tie_perm lt key l l' -> tie_perm lt key (ins x l) (ins x l').
Proof using Hlt.
  intros Hx Hl Ht. induction Ht as [|y l l' Ht IH|y z l Hyz Hzy|l l' l'' H1 IH1 H2 IH2].
  - apply tie_perm_refl.
  - inversion Hl; subst. simpl.
    destruct (lt (key y) (key x)); constructor; auto. now constructor.
  - inversion Hl as [|? ? Hy Hl']; subst. inversion Hl' as [|? ? Hz Hl'']; subst.
    simpl. rewrite (lt_equiv_l (key x) (key y) (key z)) by assumption.
    destruct (lt (key z) (key x)).
    + now apply tie_swap.
    + apply tie_skip. now apply tie_swap.
  - eapply tie_trans; [now apply IH1|apply IH2].
    eapply Permutation_Forall; [apply tie_perm_Permutation; eassumption|assumption].
Qed.

Lemma insert_sorted_comm x y l :
  P (key x) -> P (key y) -> keys_in l ->
  tie_perm lt key (ins x (ins y l)) (ins y (ins x l)).
Proof using Hlt.
  intros Hx Hy Hl. induction Hl as [|z l Hz Hl IH]; simpl.
  - destruct (lt (key y) (key x)) eqn:Eyx, (lt (key x) (key y)) eqn:Exy;
      try apply tie_perm_refl.
    + now rewrite (swo_asym _ _ Hlt _ _ Hy Hx Eyx) in Exy.
    + now apply tie_swap.
  - destruct (lt (key z) (key y)) eqn:Ezy, (lt (key z) (key x)) eqn:Ezx; simpl;
      rewrite ?Ezy, ?Ezx.
    + now apply tie_skip.
    + assert (Exy : lt (key x) (key y) = true).
      { destruct (swo_negtrans _ _ Hlt _ (key x) _ Hz Hx Hy Ezy); congruence. }
      rewrite Exy. simpl. rewrite ?Ezy. apply tie_perm_refl.
    + assert (Eyx : lt (key y) (key x) = true).
      { destruct (swo_negtrans _ _ Hlt _ (key y) _ Hz Hy Hx Ezx); congruence. }
      rewrite Eyx. simpl. rewrite ?Ezx. apply tie_perm_refl.
    + destruct (lt (key y) (key x)) eqn:Eyx, (lt (key x) (key y)) eqn:Exy;
        simpl; rewrite ?Ezx, ?Ezy; try apply tie_perm_refl.
      * now rewrite (swo_asym _ _ Hlt _ _ Hy Hx Eyx) in Exy.
      * now apply tie_swap.
Qed.

Lemma stable_sort_tie_perm l1 l2 :
  Permutation l1 l2 -> keys_in l1 -> tie_perm lt key (srt l1) (srt l2).
Proof using Hlt.
  induction 1 as [|x l l' Hp IH|x y l|l l' l'' H1 IH1 H2 IH2]; intros Hk.
  - constructor.
  - inversion Hk; subst. simpl.
    apply insert_sorted_tie; auto using stable_sort_keys.
  - inversion Hk as [|? ? Hy Hk']; subst. inversion Hk' as [|? ? Hx Hk'']; subst.
    simpl. apply insert_sorted_comm; auto using stable_sort_keys.
  - eapply tie_trans; [now apply IH1|apply IH2].
    eapply Permutation_Forall; eassumption.
Qed.

Lemma untied_Permutation l l' : Permutation l l' -> untied lt key l -> untied lt key l'.
Proof.
  unfold untied.
  induction 1 as [|x l l' Hp IH|x y l|l l' l'' H1 IH1 H2 IH2]; intros Hu; auto.
  - inversion Hu; subst. constructor; [|auto].
    eapply Permutation_Forall; eassumption.
  - inversion Hu as [|? ? Hy Hu']; subst. inversion Hu' as [|? ? Hx Hu'']; subst.
    inversion Hy as [|? ? Hyx Hyl]; subst.
    constructor; [constructor; [tauto|assumption]|].
    now constructor.
Qed.

Lemma tie_perm_untied l l' : tie_perm lt key l l' -> untied lt key l -> l = l'.
Proof.
  unfold untied.
  induction 1 as [|y l l' Ht IH|y z l Hyz Hzy|l l' l'' H1 IH1 H2 IH2]; intros Hu.
  - reflexivity.
  - inversion Hu; subst. f_equal; auto.
  - inversion Hu as [|? ? Hy _]; subst. inversion Hy as [|? ? [E|E] _]; congruence.
  - specialize (IH1 Hu). subst l'. auto.
Qed.

(** Permutations of a list without ties sort to the same list. *)
Lemma stable_sort_untied l1 l2 :
  Permutation l1 l2 -> keys_in l1 -> untied lt key l1 -> srt l1 = srt l2.
Proof using Hlt.
  intros Hp Hk Hu. apply tie_perm_untied; [now apply stable_sort_tie_perm|].
  eapply untied_Permutation; [symmetry; apply stable_sort_perm|exact Hu].
Qed.

(** *** [sorted] returns a permutation, whatever the comparison *)

Local Abbreviation insl := (insert_last lt key).

Lemma ascending_run_app (l : list X) : forall prev run rest,
  ascending_run lt key prev l = (run, rest) -> l = run ++ rest.
Proof.
  induction l as [|x l IH]; intros prev run rest; cbn [ascending_run].
  - intros E. now inversion E.
  - destruct (lt (key x) (key prev)); [intros E; now inversion E|].
    destruct (ascending_run lt key x l) as [run' rest'] eqn:Er.
    intros E. inversion E; subst. cbn. f_equal. eauto.
Qed.

Lemma descending_run_app (l : list X) : forall prev run rest,
  descending_run lt key prev l = (run, rest) -> l = run ++ rest.
Proof.
  induction l as [|x l IH]; intros prev run rest; cbn [descending_run].
  - intros E. now inversion E.
  - destruct (lt (key x) (key prev)); [|intros E; now inversion E].
    destruct (descending_run lt key x l) as [run' rest'] eqn:Er.
    intros E. inversion E; subst. cbn. f_equal. eauto.
Qed.

Lemma count_run_perm (l run rest : list X) :
  count_run lt key l = (run, rest) -> Permutation (run ++ rest) l.
Proof.
  destruct l as [|x [|y l]]; cbn [count_run].
  - intros E. inversion E. reflexivity.
  - intros E. inversion E. reflexivity.
  - destruct (lt (key y) (key x)).
    + destruct (descending_run lt key y l) as [run' rest'] eqn:Er.
      apply descending_run_app in Er. intros E. injection E as <- <-. subst l.
      change (x :: y :: run' ++ rest') with ((x :: y :: run') ++ rest').
      apply Permutation_app_tail. symmetry. apply Permutation_rev.
    + destruct (ascending_run lt key y l) as [run' rest'] eqn:Er.
      apply ascending_run_app in Er. intros E. injection E as <- <-. now subst l.
Qed.

(** The binary search is not cut short: every fuel from [r - l] on
    gives the same slot, whatever the comparison answers. *)
Lemma bisect_fuel (a : list X) (pivot : X) : forall fuel fuel' l r,
  (l < r)%nat -> (r - l <= fuel)%nat -> (r - l <= fuel')%nat ->
  bisect lt key fuel a pivot l r = bisect lt key fuel' a pivot l r.
Proof.
  induction fuel as [|fuel IH]; intros fuel' l r Hlr Hf Hf'; [lia|].
  destruct fuel' as [|fuel']; [lia|]. cbn [bisect].
  assert (Hhalf : (Nat.div2 (r - l) < r - l)%nat) by (apply Nat.lt_div2; lia).
  revert Hhalf. generalize (Nat.div2 (r - l)). intros h Hh.
  destruct (lt (key pivot) (key (nth (l + h) a pivot))).
  - destruct (Nat.ltb_spec l (l + h)); [apply IH; lia|reflexivity].
  - destruct (Nat.ltb_spec (S (l + h)) r); [apply IH; lia|reflexivity].
Qed.

Lemma insert_at_perm (n : nat) (x : X) (a : list X) :
  Permutation (insert_at n x a) (x :: a).
Proof.
  unfold insert_at. rewrite <- (firstn_skipn n a) at 3.
  symmetry. apply Permutation_middle.
Qed.

Lemma binarysort_perm (rest : list X) : forall run,
  Permutation (binarysort lt key run rest) (run ++ rest).
Proof.
  unfold binarysort.
  induction rest as [|x rest IH]; intros run; cbn [fold_left].
  - now rewrite app_nil_r.
  - rewrite IH. unfold binary_insert. rewrite insert_at_perm.
    apply Permutation_middle.
Qed.

Lemma sorted_perm (l : list X) : Permutation (sorted lt key l) l.
Proof.
  unfold sorted. destruct (count_run lt key l) as [run rest] eqn:E.
  rewrite binarysort_perm. now apply count_run_perm.
Qed.

(** *** On ordered keys [sorted] is the stable sort *)

Lemma lt_trans a b c : P a -> P b -> P c ->
  lt a b = true -> lt b c = true -> lt a c = true.
Proof using Hlt.
  intros Ha Hb Hc H1 H2.
  destruct (swo_negtrans _ _ Hlt a c b Ha Hc Hb H1) as [E|E]; [exact E|].
  now rewrite (swo_asym _ _ Hlt _ _ Hb Hc H2) in E.
Qed.

(** Left and right insertion commute. *)
Lemma insert_sorted_last (x y : X) (a : list X) :
  P (key x) -> P (key y) -> keys_in a ->
  ins y (insl x a) = insl x (ins y a).
Proof using Hlt.
  intros Hx Hy Ha. induction Ha as [|z a Hz Ha IH]; cbn.
  - now destruct (lt (key x) (key y)).
  - destruct (lt (key x) (key z)) eqn:Exz, (lt (key z) (key y)) eqn:Ezy; cbn;
      rewrite ?Exz, ?Ezy.
    + now rewrite (lt_trans _ _ _ Hx Hz Hy Exz Ezy).
    + destruct (lt (key x) (key y)); cbn; now rewrite ?Ezy, ?Exz.
    + now rewrite IH.
    + now rewrite (not_lt_trans _ _ _ Hy Hz Hx Ezy Exz).
Qed.

Lemma stable_sort_snoc (s : list X) (x : X) :
  P (key x) -> keys_in s -> srt (s ++ [x]) = insl x (srt s).
Proof using Hlt.
  intros Hx Hs. unfold stable_sort. induction Hs as [|y s Hy Hs IH]; cbn; [reflexivity|].
  rewrite IH. apply insert_sorted_last; auto. now apply stable_sort_keys.
Qed.

Lemma ascending_nth (a : list X) (d : X) : ascending lt key a ->
  forall i j, (i < j < length a)%nat ->
  lt (key (nth j a d)) (key (nth i a d)) = false.
Proof.
  induction 1 as [|y a Hs IH Hy]; intros i j Hij; cbn in Hij; [lia|].
  destruct j as [|j]; [lia|]. destruct i as [|i]; cbn [nth].
  - rewrite List.Forall_forall in Hy. apply Hy, nth_In. lia.
  - apply IH. lia.
Qed.

Lemma keys_nth (a : list X) (d : X) (i : nat) :
  keys_in a -> (i < length a)%nat -> P (key (nth i a d)).
Proof.
  intros Ha Hi. rewrite List.Forall_forall in Ha. now apply Ha, nth_In.
Qed.

(** The binary search ends on the slot after the elements that are not
    greater than the pivot. *)
Lemma bisect_spec (a : list X) (pivot : X) :
  (forall i j, (i <= j < length a)%nat ->
     lt (key pivot) (key (nth i a pivot)) = true ->
     lt (key pivot) (key (nth j a pivot)) = true) ->
  forall fuel l r,
  (l < r <= length a)%nat -> (r - l <= fuel)%nat ->
  (forall i, (i < l)%nat -> lt (key pivot) (key (nth i a pivot)) = false) ->
  (forall i, (r <= i < length a)%nat -> lt (key pivot) (key (nth i a pivot)) = true) ->
  (bisect lt key fuel a pivot l r <= length a)%nat /\
  (forall i, (i < bisect lt key fuel a pivot l r)%nat ->
     lt (key pivot) (key (nth i a pivot)) = false) /\
  (forall i, (bisect lt key fuel a pivot l r <= i < length a)%nat ->
     lt (key pivot) (key (nth i a pivot)) = true).
Proof.
  intros Hmono. induction fuel as [|fuel IH]; intros l r Hlr Hfuel Hlow Hhigh; [lia|].
  cbn [bisect].
  assert (Hhalf : (Nat.div2 (r - l) < r - l)%nat) by (apply Nat.lt_div2; lia).
  set (p := (l + Nat.div2 (r - l))%nat).
  assert (Hp : (l <= p < r)%nat).
  { unfold p. revert Hhalf. generalize (Nat.div2 (r - l)). intros h Hh. lia. }
  clearbody p. clear Hhalf.
  destruct (lt (key pivot) (key (nth p a pivot))) eqn:Ep.
  - assert (Hhigh' : forall i, (p <= i < length a)%nat ->
                       lt (key pivot) (key (nth i a pivot)) = true).
    { intros i Hi. apply (Hmono p i); [lia|exact Ep]. }
    destruct (Nat.ltb_spec l p) as [Hl|Hl].
    + apply IH; auto; lia.
    + assert (l = p) by lia. subst l. repeat split; auto; lia.
  - assert (Hlow' : forall i, (i < S p)%nat ->
                      lt (key pivot) (key (nth i a pivot)) = false).
    { intros i Hi. destruct (lt (key pivot) (key (nth i a pivot))) eqn:Ei; [|reflexivity].
      rewrite (Hmono i p) in Ep; [discriminate|lia|exact Ei]. }
    destruct (Nat.ltb_spec (S p) r) as [Hl|Hl].
    + apply IH; auto; lia.
    + assert (S p = r) by lia. subst r. repeat split; auto; lia.
Qed.

Lemma insert_at_slot (a : list X) (x : X) : forall m,
  (m <= length a)%nat ->
  (forall i, (i < m)%nat -> lt (key x) (key (nth i a x)) = false) ->
  (forall i, (m <= i < length a)%nat -> lt (key x) (key (nth i a x)) = true) ->
  insert_at m x a = insl x a.
Proof.
  induction a as [|y a IH]; intros m Hm Hlow Hhigh; cbn in Hm.
  - assert (m = 0)%nat by lia. now subst m.
  - destruct m as [|m]; cbn [insert_last].
    + assert (E : lt (key x) (key y) = true) by (apply (Hhigh 0%nat); cbn; lia).
      now rewrite E.
    + assert (E : lt (key x) (key y) = false) by (apply (Hlow 0%nat); lia).
      rewrite E. unfold insert_at. cbn [firstn skipn app]. f_equal.
      apply IH; [lia| |].
      * intros i Hi. apply (Hlow (S i)). lia.
      * intros i Hi. apply (Hhigh (S i)). cbn. lia.
Qed.

(** On a sorted prefix the binary insertion is the insertion after the
    elements that are not greater. *)
Lemma binary_insert_last (a : list X) (x : X) :
  P (key x) -> keys_in a -> ascending lt key a ->
  binary_insert lt key a x = insl x a.
Proof using Hlt.
  intros Hx Ha Hs. unfold binary_insert.
  destruct a as [|y a']; [reflexivity|].
  set (a := y :: a') in *.
  assert (Hmono : forall i j, (i <= j < length a)%nat ->
            lt (key x) (key (nth i a x)) = true ->
            lt (key x) (key (nth j a x)) = true).
  { intros i j Hij Ei. destruct (Nat.eq_dec i j) as [->|Hne]; [exact Ei|].
    pose proof (ascending_nth a x Hs i j) as Hji.
    destruct (swo_negtrans _ _ Hlt (key x) (key (nth j a x)) (key (nth i a x)))
      as [E|E]; auto using keys_nth.
    - apply keys_nth; [exact Ha|lia].
    - apply keys_nth; [exact Ha|lia].
    - rewrite Hji in E; [discriminate|lia]. }
  destruct (bisect_spec a x Hmono (length a) 0 (length a)) as (Hm & Hlow & Hhigh).
  - cbn. lia.
  - lia.
  - intros i Hi. lia.
  - intros i Hi. lia.
  - now apply insert_at_slot.
Qed.

(** A run that never steps down is sorted already. *)
Lemma ascending_run_ascending (l : list X) : forall prev run rest,
  P (key prev) -> keys_in l ->
  ascending_run lt key prev l = (run, rest) -> ascending lt key (prev :: run).
Proof using Hlt.
  induction l as [|x l IH]; intros prev run rest Hp Hl; cbn [ascending_run].
  - intros E. injection E as <- <-. repeat constructor.
  - inversion Hl as [|? ? Hx Hl']; subst.
    destruct (lt (key x) (key prev)) eqn:Exp.
    + intros E. injection E as <- <-. repeat constructor.
    + destruct (ascending_run lt key x l) as [run' rest'] eqn:Er.
      intros E. injection E as <- <-.
      pose proof (IH x run' rest' Hx Hl' Er) as Hs.
      assert (Hk : keys_in run').
      { apply ascending_run_app in Er. subst l. now apply Forall_app in Hl' as [? _]. }
      constructor; [exact Hs|].
      inversion Hs as [|? ? _ Hall]; subst.
      constructor; [exact Exp|].
      rewrite List.Forall_forall in *. intros z Hz.
      apply (not_lt_trans _ (key x)); auto.
Qed.

Lemma stable_sort_ascending_id (l : list X) : ascending lt key l -> srt l = l.
Proof.
  induction 1 as [|x l Hs IH Hx]; [reflexivity|].
  cbn. unfold stable_sort in IH. rewrite IH. now apply insert_sorted_head.
Qed.

(** A run that steps down at every element sorts to its reversal. *)
Lemma descending_run_descending (l : list X) : forall prev run rest,
  P (key prev) -> keys_in l ->
  descending_run lt key prev l = (run, rest) ->
  StronglySorted (fun x y => lt (key y) (key x) = true) (prev :: run).
Proof using Hlt.
  induction l as [|x l IH]; intros prev run rest Hp Hl; cbn [descending_run].
  - intros E. injection E as <- <-. repeat constructor.
  - inversion Hl as [|? ? Hx Hl']; subst.
    destruct (lt (key x) (key prev)) eqn:Exp.
    + destruct (descending_run lt key x l) as [run' rest'] eqn:Er.
      intros E. injection E as <- <-.
      pose proof (IH x run' rest' Hx Hl' Er) as Hs.
      assert (Hk : keys_in run').
      { apply descending_run_app in Er. subst l. now apply Forall_app in Hl' as [? _]. }
      constructor; [exact Hs|].
      inversion Hs as [|? ? _ Hall]; subst.
      constructor; [exact Exp|].
      rewrite List.Forall_forall in *. intros z Hz.
      apply (lt_trans _ (key x)); auto.
    + intros E. injection E as <- <-. repeat constructor.
Qed.

Lemma insert_sorted_end (x : X) (l : list X) :
  Forall (fun z => lt (key z) (key x) = true) l -> ins x l = l ++ [x].
Proof.
  induction 1 as [|y l Hy _ IH]; cbn; [reflexivity|]. now rewrite Hy, IH.
Qed.

Lemma stable_sort_descending_rev (l : list X) :
  StronglySorted (fun x y => lt (key y) (key x) = true) l -> srt l = rev l.
Proof.
  induction 1 as [|x l Hs IH Hx]; [reflexivity|].
  cbn. unfold stable_sort in IH. rewrite IH. apply insert_sorted_end.
  rewrite List.Forall_forall in *. intros z Hz. apply Hx. now apply in_rev.
Qed.

(** [count_run] returns the first run sorted as the stable sort would. *)
Lemma count_run_stable (l run rest : list X) :
  keys_in l -> count_run lt key l = (run, rest) ->
  exists src, l = src ++ rest /\ run = srt src.
Proof using Hlt.
  intros Hl. destruct l as [|x [|y l]]; cbn [count_run].
  - intros E. injection E as <- <-. now exists [].
  - intros E. injection E as <- <-. now exists [x].
  - inversion Hl as [|? ? Hx Hl']; subst. inversion Hl' as [|? ? Hy Hl'']; subst.
    destruct (lt (key y) (key x)) eqn:Eyx.
    + destruct (descending_run lt key y l) as [run' rest'] eqn:Er.
      intros E. injection E as <- <-.
      pose proof (descending_run_descending l y run' rest' Hy Hl'' Er) as Hs.
      pose proof (descending_run_app _ _ _ _ Er) as ->.
      exists (x :: y :: run'). split; [reflexivity|].
      symmetry. apply stable_sort_descending_rev.
      constructor; [exact Hs|].
      inversion Hs as [|? ? _ Hall]; subst.
      constructor; [exact Eyx|].
      assert (Hk : keys_in run') by now apply Forall_app in Hl'' as [? _].
      rewrite List.Forall_forall in *. intros z Hz.
      apply (lt_trans _ (key y)); auto.
    + destruct (ascending_run lt key y l) as [run' rest'] eqn:Er.
      intros E. injection E as <- <-.
      pose proof (ascending_run_ascending l y run' rest' Hy Hl'' Er) as Hs.
      pose proof (ascending_run_app _ _ _ _ Er) as ->.
      exists (x :: y :: run'). split; [reflexivity|].
      symmetry. apply stable_sort_ascending_id.
      constructor; [exact Hs|].
      inversion Hs as [|? ? _ Hall]; subst.
      constructor; [exact Eyx|].
      assert (Hk : keys_in run') by now apply Forall_app in Hl'' as [? _].
      rewrite List.Forall_forall in *. intros z Hz.
      apply (not_lt_trans _ (key y)); auto.
Qed.

Lemma binarysort_stable (rest : list X) : forall s,
  keys_in s -> keys_in rest -> binarysort lt key (srt s) rest = srt (s ++ rest).
Proof using Hlt.
  unfold binarysort.
  induction rest as [|x rest IH]; intros s Hs Hr; cbn [fold_left].
  - now rewrite app_nil_r.
  - inversion Hr as [|? ? Hx Hr']; subst.
    rewrite binary_insert_last; auto using stable_sort_keys, stable_sort_ascending.
    rewrite <- stable_sort_snoc by assumption.
    rewrite IH; [now rewrite <- app_assoc|apply Forall_app; auto|assumption].
Qed.

(** On keys that [lt] orders, [sorted] is the stable sort. *)
Lemma sorted_stable (l : list X) : keys_in l -> sorted lt key l = srt l.
Proof using Hlt.
  intros Hl. unfold sorted. destruct (count_run lt key l) as [run rest] eqn:E.
  destruct (count_run_stable l run rest Hl E) as (src & -> & ->).
  apply Forall_app in Hl as [Hs Hr]. now apply binarysort_stable.
Qed.

Lemma sorted_keys l : keys_in l -> keys_in (sorted lt key l).
Proof.
  intros Hl. eapply Permutation_Forall; [symmetry; apply sorted_perm|exact Hl].
Qed.

Lemma sorted_ascending l : keys_in l -> ascending lt key (sorted lt key l).
Proof using Hlt.
  intros Hl. rewrite sorted_stable by exact Hl. now apply stable_sort_ascending.
Qed.

Lemma filter_sorted (f : X -> bool) l :
  keys_in l -> List.filter f (sorted lt key l) = sorted lt key (List.filter f l).
Proof using Hlt.
  intros Hl. rewrite !sorted_stable; [now apply filter_stable_sort| |exact Hl].
  apply List.Forall_forall. intros x Hx. apply filter_In in Hx as [Hx _].
  rewrite List.Forall_forall in Hl. auto.
Qed.

Lemma sorted_tie_perm l1 l2 :
  Permutation l1 l2 -> keys_in l1 ->
  tie_perm lt key (sorted lt key l1) (sorted lt key l2).
Proof using Hlt.
  intros Hp Hk. rewrite !sorted_stable; [now apply stable_sort_tie_perm| |exact Hk].
  eapply Permutation_Forall; eassumption.
Qed.

(** Permutations of a list without ties sort to the same list. *)
Lemma sorted_untied l1 l2 :
  Permutation l1 l2 -> keys_in l1 -> untied lt key l1 ->
  sorted lt key l1 = sorted lt key l2.
Proof using Hlt.
  intros Hp Hk Hu. rewrite !sorted_stable; [now apply stable_sort_untied| |exact Hk].
  eapply Permutation_Forall; eassumption.
Qed.

End SortedFacts.

(* ================================================================== *)
(** ** The walk *)

Section Walker.
Context {A : Type} `{PyFloat A}.
Local Open Scope py_scope.

Lemma walk_levels_filter_valid (levels : list (level A)) (s c r : A) :
  walk_levels (List.filter valid levels) s c r = walk_levels levels s c r.
Proof.
  revert s c r. induction levels as [|o rest IH]; intros s c r; [reflexivity|].
  simpl. unfold valid at 1.
  destruct ((get (price o) (lit 0 0) <=? lit 0 0) || (get (size o) (lit 0 0) <=? lit 0 0)) eqn:E;
    simpl.
  - apply IH.
  - rewrite E. destruct (_ <=? r); [apply IH|reflexivity].
Qed.

Lemma walk_book_filter_valid (P : A -> Prop) (asks : list (level A)) (budget : A) :
  strict_weak_on P nltb -> Forall (fun o => P (sort_key o)) asks ->
  walk_book (List.filter valid asks) budget = walk_book asks budget.
Proof.
  intros Hlt Hk. unfold walk_book.
  rewrite <- (filter_sorted nltb sort_key P Hlt) by exact Hk.
  apply walk_levels_filter_valid.
Qed.

Lemma walk_book_untied (P : A -> Prop) (l1 l2 : list (level A)) (budget : A) :
  strict_weak_on P nltb -> Forall (fun o => P (sort_key o)) l1 ->
  Permutation l1 l2 -> untied nltb sort_key l1 ->
  walk_book l1 budget = walk_book l2 budget.
Proof.
  intros Hlt Hk Hp Hu. unfold walk_book.
  now rewrite (sorted_untied nltb sort_key P Hlt l1 l2).
Qed.
End Walker.

Lemma Qle_bool_false (x y : Q) : Qle_bool x y = false -> y < x.
Proof.
  intros E. apply Qnot_le_lt. intros Hle. apply Qle_bool_iff in Hle. congruence.
Qed.

Lemma Qltb_true (x y : Q) : Qltb x y = true <-> x < y.
Proof.
  unfold Qltb. rewrite negb_true_iff. split.
  - apply Qle_bool_false.
  - intros Hlt. destruct (Qle_bool y x) eqn:E; [|reflexivity].
    apply Qle_bool_iff in E. lra.
Qed.

Lemma Qltb_false (x y : Q) : Qltb x y = false <-> y <= x.
Proof.
  unfold Qltb. rewrite negb_false_iff. apply Qle_bool_iff.
Qed.

Lemma Q_strict_weak : strict_weak_on (fun _ : Q => True) (@nltb Q _).
Proof.
  split; simpl.
  - intros a b _ _ Hab. apply Qltb_true in Hab. apply Qltb_false. lra.
  - intros a b c _ _ _ Hac. apply Qltb_true in Hac.
    destruct (Qltb a b) eqn:E; [now left|right].
    apply Qltb_false in E. apply Qltb_true. lra.
Qed.

(** Reading the interface at [Q]. *)
Ltac pyQ :=
  change (@lit Q Q_float 0 0) with 0 in *;
  change (@lit Q Q_float 0 1) with (0 # 10) in *;
  change (@lit Q Q_float 1 0) with 1 in *;
  change (@lit Q Q_float 100 0) with 100 in *;
  change (@lit Q Q_float 99 2) with (99 # 100) in *;
  change (@nadd Q Q_float) with Qplus in *;
  change (@nsub Q Q_float) with Qminus in *;
  change (@nmul Q Q_float) with Qmult in *;
  change (@ndiv Q Q_float) with Qdiv in *;
  change (@nleb Q Q_float) with Qle_bool in *;
  change (@nltb Q Q_float) with Qltb in *.

Ltac Qbool :=
  repeat match goal with
  | E : Qle_bool _ _ = true |- _ => apply Qle_bool_iff in E
  | E : Qle_bool _ _ = false |- _ => apply Qle_bool_false in E
  | E : Qltb _ _ = true |- _ => apply Qltb_true in E
  | E : Qltb _ _ = false |- _ => apply Qltb_false in E
  | E : _ || _ = false |- _ => apply orb_false_iff in E; destruct E
  | E : _ || _ = true |- _ => apply orb_true_iff in E
  end.

Lemma positive_valid o : positive_level o -> valid o = true.
Proof.
  intros [Hp Hs]. unfold valid. apply negb_true_iff, orb_false_iff.
  split; apply not_true_is_false; intros E; apply Qle_bool_iff in E;
    unfold price_of, size_of in *; pyQ; lra.
Qed.

Lemma notional_pos o : positive_level o -> 0 < notional o.
Proof. intros [Hp Hs]. unfold notional. nra. Qed.

Lemma depth_app l1 l2 : depth (l1 ++ l2) == depth l1 + depth l2.
Proof. induction l1 as [|o l1 IH]; simpl; [lra|rewrite IH; lra]. Qed.

Lemma total_size_app l1 l2 : total_size (l1 ++ l2) == total_size l1 + total_size l2.
Proof. induction l1 as [|o l1 IH]; simpl; [lra|rewrite IH; lra]. Qed.

Lemma depth_nonneg l : Forall positive_level l -> 0 <= depth l.
Proof.
  induction 1 as [|o l Ho _ IH]; simpl; [lra|].
  pose proof (notional_pos o Ho). lra.
Qed.

Lemma depth_Permutation l l' : Permutation l l' -> depth l == depth l'.
Proof. induction 1; simpl; lra. Qed.

Lemma total_size_Permutation l l' : Permutation l l' -> total_size l == total_size l'.
Proof. induction 1; simpl; lra. Qed.

(** The loop on well-formed levels: a prefix is taken whole, and the first
    level that does not fit takes what is left. *)
Lemma walk_levels_fill (l : list (level Q)) : forall s c r,
  Forall positive_level l -> 0 <= r ->
  exists whole rest, l = whole ++ rest /\ depth whole <= r /\
    match rest with
    | [] => fst (walk_levels l s c r) == s + total_size whole /\
            snd (walk_levels l s c r) == c + depth whole
    | o :: _ => r < depth whole + notional o /\
            fst (walk_levels l s c r) ==
              s + total_size whole + (r - depth whole) / price_of o /\
            snd (walk_levels l s c r) == c + r
    end.
Proof.
  induction l as [|o l IH]; intros s c r Hl Hr.
  - exists [], []. simpl. repeat split; lra.
  - inversion Hl as [|? ? Ho Hl']; subst.
    pose proof (positive_valid o Ho) as Hv. pose proof (notional_pos o Ho) as Hn.
    unfold valid in Hv. apply negb_true_iff in Hv.
    cbn [walk_levels]. rewrite Hv. pyQ.
    fold (price_of o) (size_of o) (notional o).
    destruct (Qle_bool (notional o) r) eqn:E; Qbool.
    + destruct (IH (s + size_of o) (c + notional o) (r - notional o) Hl')
        as (whole & rest & -> & Hd & Hrest); [lra|].
      exists (o :: whole), rest. split; [reflexivity|]. simpl depth. split; [lra|].
      simpl total_size.
      destruct rest as [|o' rest].
      * destruct Hrest as [H1 H2]. rewrite H1, H2. split; lra.
      * destruct Hrest as (Hlt & H1 & H2). rewrite H1, H2.
        split; [lra|]. split; [|lra].
        setoid_replace (r - notional o - depth whole)
          with (r - (notional o + depth whole)) using relation Qeq by lra.
        lra.
    + exists [], (o :: l). simpl. repeat split; try lra.
      setoid_replace (r - 0) with r using relation Qeq by lra. lra.
Qed.

Lemma Qeq2_refl p : Qeq2 p p.
Proof. split; reflexivity. Qed.

Lemma Qeq2_trans p q r : Qeq2 p q -> Qeq2 q r -> Qeq2 p r.
Proof. intros [H1 H2] [H3 H4]. split; etransitivity; eauto. Qed.

Lemma Qle_bool_Qeq a b a' b' : a == a' -> b == b' -> Qle_bool a b = Qle_bool a' b'.
Proof.
  intros Ha Hb. destruct (Qle_bool a b) eqn:E1, (Qle_bool a' b') eqn:E2;
    try reflexivity; Qbool; lra.
Qed.

Lemma walk_levels_Qeq (l : list (level Q)) : forall s s' c c' r r',
  s == s' -> c == c' -> r == r' ->
  Qeq2 (walk_levels l s c r) (walk_levels l s' c' r').
Proof.
  induction l as [|o l IH]; intros s s' c c' r r' Hs Hc Hr.
  - split; assumption.
  - cbn [walk_levels]. pyQ.
    destruct (Qle_bool (get (price o) 0) 0 || Qle_bool (get (size o) 0) 0).
    + now apply IH.
    + rewrite (Qle_bool_Qeq _ r _ r' (Qeq_refl _) Hr).
      destruct (Qle_bool _ r').
      * apply IH; lra.
      * split; simpl; rewrite ?Hs, ?Hc, ?Hr; reflexivity.
Qed.

Ltac split_Qle :=
  repeat match goal with
  | |- context [Qle_bool ?a ?b] =>
      let E := fresh "E" in destruct (Qle_bool a b) eqn:E; cbn [orb]
  end.

(** Exchanging two neighbours of equal sort key leaves the walk unchanged. *)
Lemma walk_levels_swap (x y : level Q) (l : list (level Q)) (s c r : Q) :
  Qltb (sort_key x) (sort_key y) = false ->
  Qltb (sort_key y) (sort_key x) = false ->
  Qeq2 (walk_levels (x :: y :: l) s c r) (walk_levels (y :: x :: l) s c r).
Proof.
  intros Hxy Hyx. Qbool.
  assert (Hk : sort_key x == sort_key y) by lra. clear Hxy Hyx.
  destruct x as [[px|] ox], y as [[py|] oy]; unfold sort_key in Hk;
    cbn [walk_levels price size get] in *; pyQ;
    set (sx := get ox 0) in *; set (sy := get oy 0) in *;
    change (Qle_bool 0 0) with true; cbn [orb].
  - destruct (Qle_bool px 0) eqn:Epx, (Qle_bool sx 0) eqn:Esx,
             (Qle_bool py 0) eqn:Epy, (Qle_bool sy 0) eqn:Esy;
      cbn [orb]; try apply Qeq2_refl;
      try (destruct (Qle_bool _ r); apply Qeq2_refl).
    Qbool.
    assert (0 < px * sx) by nra. assert (0 < py * sy) by nra.
    split_Qle; Qbool; try (exfalso; lra);
      first [ apply walk_levels_Qeq; lra
            | split; cbn [fst snd]; [rewrite <- ?Hk; field; lra | lra] ].
  - destruct (Qle_bool px 0 || Qle_bool sx 0); [apply Qeq2_refl|].
    destruct (Qle_bool _ r); apply Qeq2_refl.
  - destruct (Qle_bool py 0 || Qle_bool sy 0); [apply Qeq2_refl|].
    destruct (Qle_bool _ r); apply Qeq2_refl.
  - apply Qeq2_refl.
Qed.

Lemma walk_levels_tie_perm (l l' : list (level Q)) :
  tie_perm nltb sort_key l l' ->
  forall s c r, Qeq2 (walk_levels l s c r) (walk_levels l' s c r).
Proof.
  induction 1 as [|x l l' Ht IH|x y l Hxy Hyx|l l' l'' H1 IH1 H2 IH2]; intros s c r.
  - apply Qeq2_refl.
  - cbn [walk_levels].
    destruct (_ || _); [apply IH|]. destruct (nleb _ r); [apply IH|apply Qeq2_refl].
  - now apply walk_levels_swap.
  - eapply Qeq2_trans; [apply IH1|apply IH2].
Qed.

(** In exact arithmetic the walk does not depend on the order of the input. *)
Lemma walk_book_Permutation (l1 l2 : list (level Q)) (budget : Q) :
  Permutation l1 l2 -> Qeq2 (walk_book l1 budget) (walk_book l2 budget).
Proof.
  intros Hp. unfold walk_book. apply walk_levels_tie_perm.
  apply (sorted_tie_perm nltb sort_key (fun _ => True) Q_strict_weak); [exact Hp|].
  apply List.Forall_forall. auto.
Qed.

Lemma positive_sort_key o : positive_level o -> sort_key o = price_of o.
Proof.
  intros [Hp _]. unfold sort_key, price_of in *.
  destruct (price o); [reflexivity|]. simpl in Hp. lra.
Qed.

Lemma StronglySorted_weaken {X : Type} (R R' : X -> X -> Prop) (l : list X) :
  (forall a b, In a l -> In b l -> R a b -> R' a b) ->
  StronglySorted R l -> StronglySorted R' l.
Proof.
  intros Himp Hs. induction Hs as [|x l Hs IH Hx]; constructor.
  - apply IH. intros a b Ha Hb. apply Himp; now right.
  - rewrite List.Forall_forall in *. intros y Hy.
    apply Himp; [now left|now right|auto].
Qed.

Lemma sorted_positive l :
  Forall positive_level l -> Forall positive_level (sorted nltb sort_key l).
Proof.
  intros Hl. eapply Permutation_Forall; [symmetry; apply sorted_perm|exact Hl].
Qed.

Lemma sorted_price_ascending (l : list (level Q)) :
  Forall positive_level l ->
  StronglySorted (fun a b => price_of a <= price_of b) (sorted nltb sort_key l).
Proof.
  intros Hl.
  apply StronglySorted_weaken
    with (R := fun x y => nltb (sort_key y) (sort_key x) = false).
  - pose proof (sorted_positive l Hl) as Hs. rewrite List.Forall_forall in Hs.
    intros a b Ha Hb Hab. pyQ. Qbool.
    now rewrite <- !positive_sort_key by auto.
  - apply (sorted_ascending nltb sort_key (fun _ => True) Q_strict_weak).
    apply List.Forall_forall. auto.
Qed.

(** C1.  On a ladder of positive prices and sizes and a positive budget,
    [walk_book] consumes an ascending arrangement of the levels: a prefix
    whole, each level of it affordable, and of the first level that does
    not fit the fraction [remaining / price].  A budget within the total
    depth is spent exactly; a budget beyond it buys every level, at the
    total depth.  On the worked example (20 at 0.50, 30 at 0.55, budget
    20) the walk gives 420/11 = 38.18... shares for 20, and
    [analyze_book] reports 38.1818 shares, cost 20.0, average 0.5238 and
    slippage 4.76, in exact arithmetic and in binary64. *)
Theorem walk_book_fills_budget :
  (forall (asks : list (level Q)) (budget : Q),
     Forall positive_level asks -> 0 < budget ->
     let shares := fst (walk_book asks budget) in
     let cost := snd (walk_book asks budget) in
     (exists whole rest,
        Permutation asks (whole ++ rest) /\
        StronglySorted (fun a b => price_of a <= price_of b) (whole ++ rest) /\
        depth whole <= budget /\
        match rest with
        | [] => shares == total_size whole /\ cost == depth whole
        | o :: _ =>
            budget < depth whole + notional o /\
            shares == total_size whole + (budget - depth whole) / price_of o /\
            cost == budget
        end) /\
     (budget <= depth asks -> cost == budget) /\
     (depth asks < budget -> shares == total_size asks /\ cost == depth asks)) /\
  Qeq2 (walk_book example_asks (lit 20 0)) (420 # 11, 20) /\
  analyze_book default_config (fun _ => Book example_asks []) "yes" (lit 20 0)
    = Estimate (example_estimate (A := Q)) /\
  walk_book example_asks (lit 20 0) = (38.18181818181818%float, 20%float) /\
  analyze_book default_config (fun _ => Book example_asks []) "yes" (lit 20 0)
    = Estimate (example_estimate (A := float)).
Proof.
  split; [|repeat split; vm_compute; reflexivity].
  intros asks budget Hpos Hb shares cost. subst shares cost. unfold walk_book.
  change (@lit Q Q_float 0 1) with (0 # 10).
  pose proof (sorted_positive asks Hpos) as Hs.
  destruct (walk_levels_fill (sorted nltb sort_key asks) (0 # 10) (0 # 10) budget Hs)
    as (whole & rest & Heq & Hd & Hrest); [lra|].
  assert (Hperm : Permutation asks (whole ++ rest)).
  { rewrite <- Heq. symmetry. apply sorted_perm. }
  assert (Hdepth : depth asks == depth whole + depth rest).
  { rewrite (depth_Permutation _ _ Hperm). apply depth_app. }
  assert (Hsize : total_size asks == total_size whole + total_size rest).
  { rewrite (total_size_Permutation _ _ Hperm). apply total_size_app. }
  assert (Hrpos : Forall positive_level rest).
  { rewrite Heq in Hs. apply Forall_app in Hs. tauto. }
  split; [|split].
  - exists whole, rest. split; [exact Hperm|]. split.
    + rewrite <- Heq. now apply sorted_price_ascending.
    + split; [exact Hd|]. destruct rest as [|o rest].
      * destruct Hrest as [H1 H2]. split; lra.
      * destruct Hrest as (H1 & H2 & H3). repeat split; try lra.
  - intros Hle. destruct rest as [|o rest].
    + simpl in Hdepth. destruct Hrest as [_ H2]. lra.
    + destruct Hrest as (_ & _ & H3). lra.
  - intros Hlt. destruct rest as [|o rest].
    + simpl in Hdepth, Hsize. destruct Hrest as [H1 H2]. split; lra.
    + exfalso. destruct Hrest as (H1 & _).
      inversion Hrpos as [|? ? Ho Hr']; subst.
      pose proof (depth_nonneg rest Hr'). simpl in Hdepth. lra.
Qed.

(** C1 on the worked example: the budget of 20 is within the depth of
    26.5 and is spent exactly. *)
Lemma walk_book_fills_budget_witness :
  snd (walk_book (example_asks (A := Q)) (lit 20 0)) == lit 20 0.
Proof.
  refine (proj1 (proj2 (proj1 walk_book_fills_budget example_asks (lit 20 0) _ _)) _).
  - repeat constructor.
  - reflexivity.
  - vm_compute. discriminate.
Defined.

(* ================================================================== *)
(** ** The verdict of [analyze_book] *)

Section Verdict.
Context {A : Type} `{PyFloat A}.
Local Open Scope py_scope.

Lemma analyze_book_Estimate cfg fetch tok usdc e :
  analyze_book cfg fetch tok usdc = Estimate e ->
  exists asks bids ba bb d,
    fetch tok = Book asks bids /\ first_price asks = Some ba /\
    first_price bids = Some bb /\ depth_from (lit 0 0) asks = inr d /\
    e = analyze cfg asks usdc ba bb d.
Proof.
  unfold analyze_book. intros He.
  destruct (fetch tok) as [|c err|asks bids]; try discriminate.
  destruct (first_price asks) as [ba|] eqn:Ea; try discriminate.
  destruct (first_price bids) as [bb|] eqn:Eb; try discriminate.
  destruct (depth_from (lit 0 0) asks) as [k|d] eqn:Ed; try discriminate.
  exists asks, bids, ba, bb, d. inversion He. auto.
Qed.

Lemma analyze_blocked cfg asks usdc ba bb d :
  blocked (analyze cfg asks usdc ba bb d) =
  (slippage_pct (analyze cfg asks usdc ba bb d) >? slippage_block cfg).
Proof. unfold analyze. now destruct (walk_book asks usdc). Qed.

Lemma analyze_warnings cfg asks usdc ba bb d :
  warnings (analyze cfg asks usdc ba bb d) =
  slippage_warnings cfg (slippage_pct (analyze cfg asks usdc ba bb d))
  ++ liquidity_warnings (snd (walk_book asks usdc)) usdc.
Proof.
  unfold analyze, slippage_warnings, liquidity_warnings.
  destruct (walk_book asks usdc) as [shares cost]. cbn [slippage_pct warnings snd].
  destruct (_ >? slippage_block cfg); [|destruct (_ >? slippage_warn cfg)];
    destruct (cost <? _); reflexivity.
Qed.

Lemma no_insufficient_in_slippage cfg s :
  existsb is_insufficient (slippage_warnings cfg s) = false.
Proof.
  unfold slippage_warnings.
  destruct (_ >? slippage_block cfg); [|destruct (_ >? slippage_warn cfg)]; reflexivity.
Qed.

Lemma no_BLOCKED_in_liquidity cost usdc :
  existsb is_BLOCKED (liquidity_warnings cost usdc) = false.
Proof. unfold liquidity_warnings. destruct (cost <? _); reflexivity. Qed.

Lemma In_BLOCKED_existsb (l : list (warning A)) :
  (exists s lim, In (BLOCKED s lim) l) <-> existsb is_BLOCKED l = true.
Proof.
  rewrite existsb_exists. split.
  - intros (s & lim & Hin). exists (BLOCKED s lim). auto.
  - intros ([s lim| |] & Hin & Hb); try discriminate. eauto.
Qed.

(** The verdict as a function of the rounded slippage. *)
Lemma verdict_cases cfg asks usdc ba bb d :
  let e := analyze cfg asks usdc ba bb d in
  let s := slippage_pct e in
  ((s >? slippage_block cfg) = true ->
     blocked e = true /\ existsb is_BLOCKED (warnings e) = true /\
     In (BLOCKED s (slippage_block cfg)) (warnings e)) /\
  ((s >? slippage_block cfg) = false ->
     blocked e = false /\ existsb is_BLOCKED (warnings e) = false /\
     ((s >? slippage_warn cfg) = true ->
        warnings e = HighSlippage s :: liquidity_warnings (snd (walk_book asks usdc)) usdc)).
Proof.
  intros e s. subst e s.
  rewrite analyze_blocked, analyze_warnings. unfold slippage_warnings.
  split; intros Hb; rewrite Hb.
  - split; [reflexivity|]. split; [reflexivity|]. now left.
  - split; [reflexivity|]. split.
    + rewrite existsb_app, no_BLOCKED_in_liquidity.
      now destruct (_ >? slippage_warn cfg).
    + now intros ->.
Qed.
End Verdict.

(* ================================================================== *)
(** ** The order of binary64 *)

Section FloatOrder.
Local Open Scope Z_scope.

Lemma SFcompare_antisym (x y : spec_float) :
  SFcompare y x = option_map CompOpp (SFcompare x y).
Proof.
  destruct x as [[]| []| |[] m1 e1], y as [[]| []| |[] m2 e2]; try reflexivity;
    unfold SFcompare; cbn [option_map]; f_equal;
    rewrite (Z.compare_antisym e1 e2);
    destruct (e1 ?= e2) eqn:E; cbn [CompOpp]; try reflexivity;
    change (Pos.compare_cont Eq m2 m1) with (Pos.compare m2 m1);
    change (Pos.compare_cont Eq m1 m2) with (Pos.compare m1 m2);
    rewrite (Pos.compare_antisym m1 m2); rewrite ?CompOpp_involutive; reflexivity.
Qed.

Lemma float_eqb_not_ltb (x y : float) :
  PrimFloat.eqb x y = true -> PrimFloat.ltb y x = false.
Proof.
  rewrite FloatAxioms.eqb_spec, FloatAxioms.ltb_spec. unfold SFeqb, SFltb.
  rewrite (SFcompare_antisym (Prim2SF x) (Prim2SF y)).
  destruct (SFcompare (Prim2SF x) (Prim2SF y)) as [[]|]; simpl; congruence.
Qed.

Lemma float_ltb_asym (x y : float) :
  PrimFloat.ltb x y = true -> PrimFloat.ltb y x = false.
Proof.
  rewrite !FloatAxioms.ltb_spec. unfold SFltb.
  rewrite (SFcompare_antisym (Prim2SF x) (Prim2SF y)).
  destruct (SFcompare (Prim2SF x) (Prim2SF y)) as [[]|]; simpl; congruence.
Qed.

Ltac cmp_cases :=
  repeat match goal with
  | |- context [Z.compare ?a ?b] => destruct (Z.compare_spec a b); subst
  | |- context [Pos.compare ?a ?b] => destruct (Pos.compare_spec a b); subst
  end.

Lemma SFltb_negtrans (a b c : spec_float) :
  b <> S754_nan -> SFltb a c = true -> SFltb a b = true \/ SFltb b c = true.
Proof.
  intros Hb. unfold SFltb.
  destruct a as [[]| []| |[] m1 e1], b as [[]| []| |[] m2 e2], c as [[]| []| |[] m3 e3];
    try congruence; cbn [SFcompare]; try (intros; discriminate); try tauto;
    change (Pos.compare_cont Eq) with Pos.compare;
    cmp_cases; cbn [CompOpp]; intros; try discriminate; try tauto; try lia.
Qed.

Lemma float_strict_weak : forall a b c : float,
  (PrimFloat.ltb a b = true -> PrimFloat.ltb b a = false) /\
  (PrimFloat.is_nan b = false -> PrimFloat.ltb a c = true ->
   PrimFloat.ltb a b = true \/ PrimFloat.ltb b c = true).
Proof.
  intros a b c. split; [apply float_ltb_asym|].
  rewrite !FloatAxioms.ltb_spec. intros Hb. apply SFltb_negtrans.
  intros Hn. unfold is_nan in Hb. rewrite FloatAxioms.eqb_spec in Hb. unfold SFeqb in Hb.
  rewrite Hn in Hb. discriminate.
Qed.
End FloatOrder.

Lemma binary64_strict_weak :
  strict_weak_on (fun x : float => PrimFloat.is_nan x = false) (@nltb float _).
Proof.
  split; simpl.
  - intros a b _ _. apply (float_strict_weak a b a).
  - intros a b c _ Hb _. now apply (float_strict_weak a b c).
Qed.

(* ================================================================== *)
(** ** The claims about [analyze_book] *)

(** When every level costs at least [pmin] a share, so does the fill. *)
Lemma walk_levels_average (pmin : Q) (l : list (level Q)) : forall s c r,
  0 < pmin -> Forall positive_level l -> Forall (fun o => pmin <= price_of o) l ->
  0 <= r ->
  pmin * (fst (walk_levels l s c r) - s) <= snd (walk_levels l s c r) - c /\
  s <= fst (walk_levels l s c r).
Proof.
  induction l as [|o l IH]; intros s c r Hmin Hl Hp Hr.
  - simpl. split; lra.
  - inversion Hl as [|? ? Ho Hl']; subst. inversion Hp as [|? ? Hpo Hp']; subst.
    pose proof (positive_valid o Ho) as Hv. pose proof (notional_pos o Ho) as Hn.
    destruct Ho as [Hprice Hsize].
    unfold valid in Hv. apply negb_true_iff in Hv.
    cbn [walk_levels]. rewrite Hv. pyQ.
    fold (price_of o) (size_of o) (notional o).
    destruct (Qle_bool (notional o) r) eqn:E; Qbool.
    + destruct (IH (s + size_of o) (c + notional o) (r - notional o) Hmin Hl' Hp')
        as [H1 H2]; [lra|].
      unfold notional in *. split; [nra|lra].
    + cbn [fst snd].
      assert (Ht : 0 <= r / price_of o) by (apply Qle_shift_div_l; lra).
      assert (Hm : r / price_of o * price_of o == r) by (field; lra).
      split; [nra|lra].
Qed.

Lemma Zround_half_even_nonneg (q : Q) : 0 <= q -> (0 <= Zround_half_even q)%Z.
Proof.
  intros Hq. unfold Zround_half_even.
  assert (Hf : (0 <= Qfloor q)%Z) by (apply (Qfloor_resp_le 0 q); exact Hq).
  destruct (Qcompare _ _); [destruct (Z.even _)| |]; lia.
Qed.

Lemma Qround_digits_nonneg (q : Q) (n : nat) : 0 <= q -> 0 <= Qround_digits q n.
Proof.
  intros Hq. unfold Qround_digits, Qle. simpl.
  assert (0 <= q * inject_Z (Z.pos (pow10 n))).
  { apply Qmult_le_0_compat; [exact Hq|]. unfold Qle. simpl. lia. }
  pose proof (Zround_half_even_nonneg _ H). lia.
Qed.

(** What does hold of the slippage, in exact arithmetic: on a ladder of
    positive levels whose first level has the lowest price, the average
    fill price is at least [best_ask] and the reported slippage is not
    negative. *)
Lemma slippage_nonneg_when_first_is_lowest (cfg : config Q)
    (fetch : string -> book_response Q) (tok : string) (usdc : Q)
    (o : level Q) (asks bids : list (level Q)) (e : fill_estimate Q) :
  fetch tok = Book (o :: asks) bids ->
  Forall positive_level (o :: asks) ->
  Forall (fun o' => price_of o <= price_of o') asks ->
  0 < usdc ->
  analyze_book cfg fetch tok usdc = Estimate e ->
  best_ask e = Some (price_of o) /\
  (0 < fst (walk_book (o :: asks) usdc) ->
   price_of o <= snd (walk_book (o :: asks) usdc) / fst (walk_book (o :: asks) usdc)) /\
  0 <= slippage_pct e.
Proof.
  intros Hf Hpos Hlow Hu He.
  destruct (analyze_book_Estimate _ _ _ _ _ He)
    as (asks' & bids' & ba & bb & d & Hf' & Hba & _ & _ & ->).
  rewrite Hf in Hf'. inversion Hf'; subst asks' bids'. clear Hf'.
  assert (Ho : positive_level o) by now inversion Hpos.
  assert (Hprice : price o = Some (price_of o)).
  { destruct Ho as [Hp _]. unfold price_of in *. destruct (price o); [reflexivity|].
    simpl in Hp. lra. }
  cbn [first_price] in Hba. rewrite Hprice in Hba. inversion Hba; subst ba. clear Hba.
  assert (Hall : Forall (fun o' => price_of o <= price_of o') (sorted nltb sort_key (o :: asks))).
  { eapply Permutation_Forall; [symmetry; apply sorted_perm|].
    constructor; [lra|exact Hlow]. }
  assert (Hpo : 0 < price_of o) by apply Ho.
  assert (Hu0 : 0 <= usdc) by lra.
  destruct (walk_levels_average (price_of o) (sorted nltb sort_key (o :: asks))
              (0 # 10) (0 # 10) usdc Hpo (sorted_positive _ Hpos) Hall Hu0)
    as [Havg Hsh].
  change (walk_levels (sorted nltb sort_key (o :: asks)) (0 # 10) (0 # 10) usdc)
    with (walk_book (o :: asks) usdc) in Havg, Hsh.
  assert (Hdiv : 0 < fst (walk_book (o :: asks) usdc) ->
     price_of o <= snd (walk_book (o :: asks) usdc) / fst (walk_book (o :: asks) usdc)).
  { intros Hs. apply Qle_shift_div_l; [exact Hs|]. lra. }
  split; [unfold analyze; now destruct (walk_book (o :: asks) usdc)|].
  split; [exact Hdiv|].
  unfold analyze. destruct (walk_book (o :: asks) usdc) as [sh co].
  cbn [fst snd slippage_pct] in *. pyQ.
  destruct (Qltb 0 sh) eqn:Es; cbn [both]; [|lra].
  Qbool. destruct (truthy (price_of o) && truthy (co / sh)); [|lra].
  apply Qround_digits_nonneg.
  destruct Ho as [Hp _]. specialize (Hdiv Es).
  apply Qmult_le_0_compat; [|lra].
  apply Qle_shift_div_l; lra.
Qed.

(** C2, at a book listed best price last: the first level is not the
    lowest, the fill averages below it and the slippage is negative. *)
Theorem analyze_book_descending_asks :
  analyze_book default_config (fun _ => Book descending_asks []) "yes" (lit 20 0)
    = Estimate (descending_estimate (A := float)) /\
  analyze_book default_config (fun _ => Book descending_asks []) "yes" (lit 20 0)
    = Estimate (descending_estimate (A := Q)) /\
  Forall positive_level (descending_asks (A := Q)) /\
  (lit 5238 4 < lit 55 2)%Q /\ (lit (-476) 2 < 0)%Q /\
  PrimFloat.ltb (lit 5238 4) (lit 55 2) = true /\
  PrimFloat.ltb (lit (-476) 2) (lit 0 0) = true.
Proof.
  split; [vm_compute; reflexivity|]. split; [vm_compute; reflexivity|].
  split; [repeat constructor|]. repeat split; vm_compute; reflexivity.
Qed.

(** C3.  The verdict compares the rounded slippage with the thresholds
    strictly.  Not above the block threshold: [blocked] is false and no
    BLOCKED warning is produced, in particular at a slippage equal to the
    threshold (as rationals, and as floats by [==]).  Above it: [blocked]
    is true and the BLOCKED warning is produced.  Above the warn threshold
    and not above the block threshold: the slippage policy produces the
    high-slippage warning alone, and [blocked] is false. *)
Theorem policy_thresholds_strict :
  (forall (A : Type) (F : PyFloat A) (cfg : config A) fetch tok usdc e,
     analyze_book cfg fetch tok usdc = Estimate e ->
     let s := slippage_pct e in
     (nltb (slippage_block cfg) s = false ->
        blocked e = false /\ existsb is_BLOCKED (warnings e) = false) /\
     (nltb (slippage_block cfg) s = true ->
        blocked e = true /\ In (BLOCKED s (slippage_block cfg)) (warnings e)) /\
     (nltb (slippage_block cfg) s = false -> nltb (slippage_warn cfg) s = true ->
        blocked e = false /\
        exists asks bids, fetch tok = Book asks bids /\
          warnings e = HighSlippage s
                       :: liquidity_warnings (snd (walk_book asks usdc)) usdc)) /\
  (forall (cfg : config Q) fetch tok usdc e,
     analyze_book cfg fetch tok usdc = Estimate e ->
     (slippage_pct e == slippage_block cfg ->
        blocked e = false /\ existsb is_BLOCKED (warnings e) = false) /\
     (slippage_block cfg < slippage_pct e ->
        blocked e = true /\
        In (BLOCKED (slippage_pct e) (slippage_block cfg)) (warnings e))) /\
  (forall (cfg : config float) fetch tok usdc e,
     analyze_book cfg fetch tok usdc = Estimate e ->
     PrimFloat.eqb (slippage_pct e) (slippage_block cfg) = true ->
     blocked e = false /\ existsb is_BLOCKED (warnings e) = false).
Proof.
  assert (G : forall (A : Type) (F : PyFloat A) (cfg : config A) fetch tok usdc e,
     analyze_book cfg fetch tok usdc = Estimate e ->
     let s := slippage_pct e in
     (nltb (slippage_block cfg) s = false ->
        blocked e = false /\ existsb is_BLOCKED (warnings e) = false) /\
     (nltb (slippage_block cfg) s = true ->
        blocked e = true /\ In (BLOCKED s (slippage_block cfg)) (warnings e)) /\
     (nltb (slippage_block cfg) s = false -> nltb (slippage_warn cfg) s = true ->
        blocked e = false /\
        exists asks bids, fetch tok = Book asks bids /\
          warnings e = HighSlippage s
                       :: liquidity_warnings (snd (walk_book asks usdc)) usdc)).
  { intros A F cfg fetch tok usdc e He s.
    destruct (analyze_book_Estimate _ _ _ _ _ He)
      as (asks & bids & ba & bb & d & Hf & _ & _ & _ & ->).
    destruct (verdict_cases cfg asks usdc ba bb d) as [Hhi Hlo].
    split; [|split].
    - intros Hb. destruct (Hlo Hb) as (H1 & H2 & _). auto.
    - intros Hb. destruct (Hhi Hb) as (H1 & _ & H3). auto.
    - intros Hb Hw. destruct (Hlo Hb) as (H1 & _ & H3).
      split; [exact H1|]. exists asks, bids. auto. }
  split; [exact G|]. split.
  - intros cfg fetch tok usdc e He.
    destruct (G Q _ cfg fetch tok usdc e He) as (Hlo & Hhi & _). split.
    + intros Heq. apply Hlo. apply Qltb_false. lra.
    + intros Hlt. apply Hhi. now apply Qltb_true.
  - intros cfg fetch tok usdc e He Heq.
    destruct (G float _ cfg fetch tok usdc e He) as (Hlo & _).
    apply Hlo. now apply float_eqb_not_ltb.
Qed.

(** C3 at the worked example: slippage 4.76 lies above the warn threshold
    3.0 and not above the block threshold 5.0. *)
Lemma policy_thresholds_strict_witness :
  blocked (example_estimate (A := float)) = false /\
  exists asks bids, Book (example_asks (A := float)) [] = Book asks bids /\
    warnings (example_estimate (A := float)) =
      HighSlippage (slippage_pct (example_estimate (A := float)))
      :: liquidity_warnings (snd (walk_book asks (lit 20 0))) (lit 20 0).
Proof.
  apply (proj1 policy_thresholds_strict float binary64 default_config
           (fun _ => Book example_asks []) "yes"%string (lit 20 0) example_estimate);
    vm_compute; reflexivity.
Defined.

(** C10.  In every estimate [analyze_book] returns, [blocked] is true
    exactly when the warnings list holds a BLOCKED entry. *)
Theorem blocked_iff_BLOCKED_warning (A : Type) (F : PyFloat A)
    (cfg : config A) (fetch : string -> book_response A) (tok : string)
    (usdc : A) (e : fill_estimate A) :
  analyze_book cfg fetch tok usdc = Estimate e ->
  (blocked e = true <-> exists s lim, In (BLOCKED s lim) (warnings e)).
Proof.
  intros He. rewrite In_BLOCKED_existsb.
  destruct (analyze_book_Estimate _ _ _ _ _ He)
    as (asks & bids & ba & bb & d & _ & _ & _ & _ & ->).
  destruct (verdict_cases cfg asks usdc ba bb d) as [Hhi Hlo].
  destruct (nltb (slippage_block cfg)
              (slippage_pct (analyze cfg asks usdc ba bb d))) eqn:Hb.
  - destruct (Hhi eq_refl) as (-> & -> & _). tauto.
  - destruct (Hlo eq_refl) as (-> & -> & _). tauto.
Qed.

(** C10 at the worked example under a block threshold of 4.0. *)
Lemma blocked_iff_BLOCKED_warning_witness :
  blocked (example_blocked (A := float)) = true <->
  exists s lim, In (BLOCKED s lim) (warnings (example_blocked (A := float))).
Proof.
  apply (blocked_iff_BLOCKED_warning float binary64 strict_config
           (fun _ => Book example_asks []) "yes"%string (lit 20 0)).
  vm_compute. reflexivity.
Defined.

(** C6.  The insufficient-liquidity warning is produced exactly when the
    cost achieved by the walk is below 99% of the requested budget,
    whatever the slippage; [blocked] is the slippage comparison alone, so
    the warning never sets it.  An empty ask list with a positive budget
    gives zero shares and cost, no average price, slippage 0.0 and the
    warning. *)
Theorem insufficient_liquidity_warning :
  (forall (A : Type) (F : PyFloat A) (cfg : config A) fetch tok usdc asks bids e,
     fetch tok = Book asks bids ->
     analyze_book cfg fetch tok usdc = Estimate e ->
     existsb is_insufficient (warnings e)
       = nltb (snd (walk_book asks usdc)) (nmul usdc (lit 99 2)) /\
     blocked e = nltb (slippage_block cfg) (slippage_pct e)) /\
  (forall (cfg : config Q) fetch tok usdc asks bids e,
     0 < usdc ->
     fetch tok = Book asks bids ->
     analyze_book cfg fetch tok usdc = Estimate e ->
     ((exists c, In (InsufficientLiquidity c) (warnings e)) <->
      snd (walk_book asks usdc) < usdc * (99 # 100)) /\
     (asks = [] ->
      shares e == 0 /\ actual_cost e == 0 /\ avg_price e = None /\
      slippage_pct e == 0 /\ best_ask e = None /\
      exists c, c == 0 /\ In (InsufficientLiquidity c) (warnings e))) /\
  analyze_book default_config (fun _ => Book [] []) "yes" (lit 250 1)
    = Estimate (empty_book_estimate (A := float)).
Proof.
  assert (G : forall (A : Type) (F : PyFloat A) (cfg : config A) fetch tok usdc asks bids e,
     fetch tok = Book asks bids ->
     analyze_book cfg fetch tok usdc = Estimate e ->
     existsb is_insufficient (warnings e)
       = nltb (snd (walk_book asks usdc)) (nmul usdc (lit 99 2)) /\
     blocked e = nltb (slippage_block cfg) (slippage_pct e)).
  { intros A F cfg fetch tok usdc asks bids e Hf He.
    destruct (analyze_book_Estimate _ _ _ _ _ He)
      as (asks' & bids' & ba & bb & d & Hf' & _ & _ & _ & ->).
    rewrite Hf in Hf'. inversion Hf'; subst asks' bids'.
    rewrite analyze_blocked, analyze_warnings. split; [|reflexivity].
    rewrite existsb_app, no_insufficient_in_slippage. unfold liquidity_warnings.
    now destruct (nltb _ _). }
  split; [exact G|]. split; [|vm_compute; reflexivity].
  intros cfg fetch tok usdc asks bids e Hpos Hf He.
  destruct (G Q _ cfg fetch tok usdc asks bids e Hf He) as [Hw _]. split.
  - rewrite <- Qltb_true. pyQ. rewrite <- Hw. rewrite existsb_exists. split.
    + intros [c Hc]. exists (InsufficientLiquidity c). auto.
    + intros ([| |c] & Hin & Hb); try discriminate. eauto.
  - intros ->.
    destruct (analyze_book_Estimate _ _ _ _ _ He)
      as (asks' & bids' & ba & bb & d & Hf' & Hba & _ & _ & ->).
    rewrite Hf in Hf'. inversion Hf'; subst asks' bids'.
    simpl in Hba. inversion Hba; subst ba.
    rewrite analyze_warnings. unfold analyze, liquidity_warnings.
    cbn [walk_book sorted count_run binarysort fold_left walk_levels shares actual_cost avg_price
         slippage_pct best_ask snd both].
    pyQ. change (Qltb 0 (0 # 10)) with false. cbv iota.
    repeat split; try reflexivity.
    exists (0 # 10). split; [reflexivity|].
    apply in_or_app. right.
    assert (Hlt : Qltb (0 # 10) (usdc * (99 # 100)) = true) by (apply Qltb_true; lra).
    rewrite Hlt. now left.
Qed.

(** C6 at an empty book and the default size. *)
Lemma insufficient_liquidity_warning_witness :
  shares (empty_book_estimate (A := Q)) == 0 /\
  actual_cost (empty_book_estimate (A := Q)) == 0 /\
  avg_price (empty_book_estimate (A := Q)) = None /\
  slippage_pct (empty_book_estimate (A := Q)) == 0 /\
  best_ask (empty_book_estimate (A := Q)) = None /\
  exists c, c == 0 /\ In (InsufficientLiquidity c) (warnings (empty_book_estimate (A := Q))).
Proof.
  refine (proj2 (proj1 (proj2 insufficient_liquidity_warning) default_config
            (fun _ => Book [] []) "yes"%string (lit 250 1) [] [] empty_book_estimate
            _ _ _) _); vm_compute; reflexivity.
Defined.

(* ================================================================== *)
(** ** The claims about [walk_book] and the order of its input *)

(** C5 fails in binary64 when a price is NaN.  [<] does not order NaN,
    so the sort leaves [0.5, nan, 0.4] as it is, while the malformed
    level at 0.45 makes it see a descending start and arrange
    [0.5, 0.45, nan, 0.4] as [0.4, 0.45, 0.5, nan]: with a budget of 2
    the walk begins at 0.4 on the ladder and at 0.5 on the ladder
    without its malformed level. *)
Lemma walk_book_nan_price_differs :
  map sort_key (sorted nltb sort_key nan_asks)
    = [0.4; 0.45; 0.5; PrimFloat.nan]%float /\
  map sort_key (List.filter valid nan_asks) = [0.5; PrimFloat.nan; 0.4]%float /\
  map sort_key (sorted nltb sort_key (List.filter valid nan_asks))
    = [0.5; PrimFloat.nan; 0.4]%float /\
  walk_book nan_asks (lit 2 0) = (5%float, 2%float) /\
  walk_book (List.filter valid nan_asks) (lit 2 0) = (4%float, 2%float) /\
  PrimFloat.eqb (fst (walk_book nan_asks (lit 2 0)))
                (fst (walk_book (List.filter valid nan_asks) (lit 2 0))) = false.
Proof.
  repeat split; vm_compute; reflexivity.
Qed.

(** C5, amended.  Malformed levels do not change the walk when every
    price is a number: [walk_book] gives the same pair on a ladder and on
    the ladder without its levels of non-positive price or size, in exact
    arithmetic for every ladder and in binary64 for every ladder none of
    whose sort keys is NaN. *)
Theorem walk_book_skips_malformed :
  (forall (asks : list (level Q)) (budget : Q),
     walk_book asks budget = walk_book (List.filter valid asks) budget) /\
  (forall (asks : list (level float)) (budget : float),
     keys_ordered asks ->
     walk_book asks budget = walk_book (List.filter valid asks) budget).
Proof.
  split.
  - intros asks budget. symmetry.
    apply (walk_book_filter_valid (fun _ => True)); [exact Q_strict_weak|].
    apply List.Forall_forall. auto.
  - intros asks budget Hk. symmetry.
    now apply (walk_book_filter_valid (fun x => PrimFloat.is_nan x = false));
      [exact binary64_strict_weak|].
Qed.

(** C5 on a ladder with a zero price, a missing price and a negative size. *)
Lemma walk_book_skips_malformed_witness :
  walk_book (ragged_asks (A := float)) (lit 20 0)
  = walk_book (List.filter valid (ragged_asks (A := float))) (lit 20 0).
Proof.
  apply (proj2 walk_book_skips_malformed).
  repeat constructor.
Defined.

(** C4 fails in binary64 when levels share a price: three levels at
    price 1 of sizes 0.1, 0.2, 0.3 and the same three reversed give sums
    that differ in the last place. *)
Lemma walk_book_tied_prices_differ :
  Permutation tied_asks (rev tied_asks) /\
  walk_book tied_asks (lit 100 0)
    = (0.6000000000000001%float, 0.6000000000000001%float) /\
  walk_book (rev tied_asks) (lit 100 0) = (0.6%float, 0.6%float) /\
  PrimFloat.eqb (fst (walk_book tied_asks (lit 100 0)))
                (fst (walk_book (rev tied_asks) (lit 100 0))) = false.
Proof.
  split; [apply Permutation_rev|]. repeat split; vm_compute; reflexivity.
Qed.

(** C4, amended.  [walk_book] depends on its input through the stable
    ascending sort only.  In binary64, two permutations of a ladder in
    which no two levels have equal prices give the identical pair; in
    exact arithmetic every two permutations give equal pairs, so with
    equal prices the binary64 results differ by rounding at most. *)
Theorem walk_book_order_independent :
  (forall (l1 l2 : list (level float)) (budget : float),
     Permutation l1 l2 -> keys_ordered l1 -> untied nltb sort_key l1 ->
     walk_book l1 budget = walk_book l2 budget) /\
  (forall (l1 l2 : list (level Q)) (budget : Q),
     Permutation l1 l2 -> Qeq2 (walk_book l1 budget) (walk_book l2 budget)).
Proof.
  split.
  - intros l1 l2 budget Hp Hk Hu.
    now apply (walk_book_untied (fun x => PrimFloat.is_nan x = false));
      [exact binary64_strict_weak| | |].
  - intros l1 l2 budget Hp. now apply walk_book_Permutation.
Qed.

(** C4 amended, on the worked example given best price first and last. *)
Lemma walk_book_order_independent_witness :
  walk_book (example_asks (A := float)) (lit 20 0)
  = walk_book (descending_asks (A := float)) (lit 20 0).
Proof.
  apply (proj1 walk_book_order_independent).
  - apply perm_swap.
  - repeat constructor.
  - repeat constructor.
Defined.

(* ================================================================== *)
(** ** Discovery and the window gate *)

Lemma token_ids_inr (lib : library) (mo : market_obj) (x : string) (l : list string) :
  token_ids lib mo = x :: l -> identifiers lib mo = inr (x :: l).
Proof.
  unfold token_ids. destruct (identifiers lib mo); [discriminate|congruence].
Qed.

(** What [discover] does guarantee of a record it returns: the selected
    market gave at least two identifiers and the first is not empty. *)
Lemma discover_first_token (lib : library) (ms : list market_obj) (m : market) :
  discover lib (Markets ms) = inr m ->
  exists mo rest ids,
    sorted ts_lt (end_ts lib) (List.filter is_match ms) = mo :: rest /\
    token_ids lib mo = yes_token m :: no_token m :: ids /\
    exists c s, yes_token m = String c s.
Proof.
  unfold discover, token_ids.
  destruct (sorted ts_lt (end_ts lib) (List.filter is_match ms)) as [|mo rest];
    [discriminate|].
  destruct (identifiers lib mo) as [exc|[|id0 [|id1 ids]]] eqn:Hids; try discriminate.
  destruct id0 as [|c s]; [discriminate|].
  destruct (fromisoformat lib (raw_end mo)) as [[t clock|t]|];
    intros Hm; inversion Hm; subst;
    exists mo, rest, ids; cbn [yes_token no_token]; rewrite ?Hids;
    repeat split; eauto.
Qed.

(** Fewer than two identifiers, or an empty first one, is MalformedMarket. *)
Lemma discover_malformed (lib : library) (ms : list market_obj) mo rest ids :
  sorted ts_lt (end_ts lib) (List.filter is_match ms) = mo :: rest ->
  identifiers lib mo = inr ids ->
  (length ids < 2)%nat \/ nth 0 ids EmptyString = EmptyString ->
  discover lib (Markets ms) = inl MalformedMarket.
Proof.
  unfold discover. intros -> -> Hids.
  destruct ids as [|id0 [|id1 ids]]; try reflexivity.
  destruct Hids as [Hlen|Hnth]; [simpl in Hlen; lia|].
  simpl in Hnth. now subst id0.
Qed.

(** C8, at a market whose second identifier is empty: only the first
    identifier is tested, and [discover] returns a record whose [no_token]
    is the empty string, from the list field and from the outcome objects
    alike. *)
Theorem discover_accepts_empty_second_token :
  discover ten_seconds_left (Markets [half_listed])
    = inr {| m_title := Some "Bitcoin Price 5 Minute: Up or Down?"%string;
             yes_token := "7131"; no_token := "";
             end_time := "unknown"; seconds_remaining := 999;
             m_liquidity := 0 |} /\
  discover ten_seconds_left (Markets [half_outcomes])
    = inr {| m_title := Some "bitcoin price 5 min"%string;
             yes_token := "7131"; no_token := "";
             end_time := "00:16:50 UTC"; seconds_remaining := 10;
             m_liquidity := 1500 # 1 |}.
Proof.
  split; vm_compute; reflexivity.
Qed.

Section Gate.
Context {A : Type} `{PyFloat A}.

Lemma run_force_irrelevant_before_book (lib : library) (cfg : config A)
    (w : world A) (args : cli_args A) (b : bool) :
  (forall m, discover lib (gamma w) = inr m ->
             (seconds_remaining m <? min_time_remaining cfg)%Z = true) ->
  run lib cfg w (with_force b args) = run lib cfg w args.
Proof.
  intros Hgate. unfold run. cbn [with_force arg_config arg_orders arg_cancel].
  destruct (arg_config args); [reflexivity|].
  destruct (arg_orders args); [reflexivity|].
  destruct (truthy_str (arg_cancel args)); [reflexivity|].
  destruct (discover lib (gamma w)) as [err|m] eqn:Hd; [reflexivity|].
  now rewrite (Hgate m eq_refl).
Qed.
End Gate.

(** C7.  When the discovered window has fewer seconds left than
    [min_time_remaining], [run] neither fetches a book nor places an
    order, whatever the command line; the force flag does not change what
    it does; and past the three client-only modes it prints the refusal
    and stops.  The force flag acts at the later slippage gate only: on a
    blocked estimate [price_book] stops after the same prefix without it
    and goes on to [execute] with it. *)
Theorem window_gate_refuses (A : Type) (F : PyFloat A) (lib : library)
    (cfg : config A) (w : world A) (args : cli_args A) (m : market) :
  discover lib (gamma w) = inr m ->
  (seconds_remaining m < min_time_remaining cfg)%Z ->
  existsb touches_market (run lib cfg w args) = false /\
  run lib cfg w (with_force true args) = run lib cfg w (with_force false args) /\
  (arg_config args = false -> arg_orders args = false ->
   truthy_str (arg_cancel args) = false ->
   run lib cfg w args =
     [ Print OutDiscovering; Discover; Print (OutMarket m);
       Print (OutWindowTooShort (seconds_remaining m) (min_time_remaining cfg)) ]) /\
  (forall m' book,
     analyze_book cfg (clob w) (chosen_token args m') (chosen_size cfg args)
       = Estimate book ->
     blocked book = true ->
     exists pre,
       price_book cfg w (with_force false args) m' = pre ++ [Print OutBlocked] /\
       price_book cfg w (with_force true args) m' =
         pre ++ execute cfg w (with_force true args) (chosen_side args)
                  (chosen_token args m') (chosen_label args) (chosen_size cfg args)).
Proof.
  intros Hd Hlt. apply Z.ltb_lt in Hlt.
  assert (Hgate : forall m0, discover lib (gamma w) = inr m0 ->
             (seconds_remaining m0 <? min_time_remaining cfg)%Z = true).
  { intros m0 Hm0. rewrite Hd in Hm0. now inversion Hm0; subst. }
  split; [|split; [|split]].
  - unfold run. destruct (arg_config args); [reflexivity|].
    destruct (arg_orders args).
    { cbn. destruct (client_ready w); cbn; [|reflexivity].
      now destruct (open_orders w) as [[|? ?]|?]. }
    destruct (truthy_str (arg_cancel args)).
    { cbn. destruct (client_ready w); cbn; [|reflexivity].
      now destruct (cancel_error w _) as [[|? ?]|]. }
    rewrite Hd. cbn. now rewrite Hlt.
  - now rewrite !run_force_irrelevant_before_book.
  - intros Hc1 Hc2 Hc3. unfold run. rewrite Hc1, Hc2, Hc3, Hd. cbn. now rewrite Hlt.
  - intros m' book Hb Hblk.
    exists ([Print (OutBookHeader (chosen_label args) (chosen_size cfg args));
             FetchBook (chosen_token args m'); Print (OutBook book)]
            ++ map (fun wn => Print (OutWarning wn)) (warnings book)).
    unfold price_book.
    change (chosen_side (with_force ?b args)) with (chosen_side args).
    change (chosen_token (with_force ?b args) m') with (chosen_token args m').
    change (chosen_label (with_force ?b args)) with (chosen_label args).
    change (chosen_size cfg (with_force ?b args)) with (chosen_size cfg args).
    rewrite Hb, Hblk. cbn [with_force arg_force negb andb].
    split; cbn [app]; now rewrite <- ?app_assoc.
Qed.

(** C7 at the scenario of the specification: ten seconds left against a
    minimum of thirty, a live order and the force flag set. *)
Lemma window_gate_refuses_witness :
  run ten_seconds_left default_config (example_world (A := float)) (live_fok true)
  = [ Print OutDiscovering; Discover; Print (OutMarket listed_window);
      Print (OutWindowTooShort 10 30) ].
Proof.
  refine (proj1 (proj2 (proj2
            (window_gate_refuses float binary64 ten_seconds_left default_config
               example_world (live_fok true) listed_window _ _))) _ _ _);
    vm_compute; reflexivity.
Defined.

(** With two minutes left and a block threshold of 4.0 the same order is
    stopped at the slippage gate, and placed when the force flag is set. *)
Example slippage_gate_is_overridable :
  last (run two_minutes_left strict_config (example_world (A := float)) (live_fok false))
    = Some (Print OutBlocked) /\
  existsb touches_market
    (run two_minutes_left strict_config (example_world (A := float)) (live_fok true))
  = true /\
  In (PlaceFOK "7131" "BUY" (lit 25 0))
     (run two_minutes_left strict_config (example_world (A := float)) (live_fok true)).
Proof.
  split; [vm_compute; reflexivity|]. split; [vm_compute; reflexivity|].
  vm_compute. tauto.
Qed.

(* ================================================================== *)
(** ** The configuration file *)

Section ConfigFacts.
Context (py_float : string -> option Q) (py_int : string -> option Z).

Lemma load_config_from_file (f : config_file) (environ : gmap string string)
    (k : string) (spec : schema_entry) (v : value) :
  schema_lookup k CONFIG_SCHEMA = Some spec ->
  read_entries f !! k = Some v ->
  load_config py_float py_int f environ !! k = Some v.
Proof.
  intros Hk Hv. unfold load_config, CONFIG_SCHEMA in *. cbn [fold_left].
  cbn [schema_lookup] in Hk.
  repeat match type of Hk with
  | (if String.eqb k ?k' then _ else _) = _ =>
      destruct (String.eqb_spec k k') as [->|?];
      [ clear Hk; rewrite ?lookup_insert_ne by (intros Hc; discriminate Hc);
        rewrite lookup_insert_eq; unfold resolve; now rewrite Hv
      | cbv iota in Hk ]
  end.
  discriminate.
Qed.

(** An item naming an unknown key stops the loop before any update. *)
Lemma collect_updates_unknown_key (items : list string) (item k v : string) :
  In item items -> split_eq item = Some (k, v) ->
  schema_lookup k CONFIG_SCHEMA = None ->
  forall updates u, collect_updates py_float py_int items updates = ConfigUpdated u -> False.
Proof.
  intros Hin Hsplit Hk. induction items as [|i items IH]; [inversion Hin|].
  intros updates u. cbn [collect_updates].
  destruct Hin as [->|Hin].
  - rewrite Hsplit, Hk. discriminate.
  - destruct (split_eq i) as [[k' v']|]; [|discriminate].
    destruct (schema_lookup k' CONFIG_SCHEMA) as [spec|]; [|discriminate].
    destruct (coerce py_float py_int (s_type spec) v'); [|discriminate].
    now apply IH.
Qed.

(** C9.  After [--set default_size=40] the file holds the float 40.0
    under ["default_size"] and reloading the configuration returns it;
    a [--set] that names a key outside [CONFIG_SCHEMA] is refused and
    leaves the file as it was. *)
Theorem config_round_trip (f : config_file) (environ : gmap string string) :
  py_float "40" = Some (40 # 1) ->
  (fst (set_config py_float py_int ["default_size=40"%string] f)
     = ConfigUpdated {[ "default_size"%string := VFloat (40 # 1) ]} /\
   read_entries (snd (set_config py_float py_int ["default_size=40"%string] f))
     !! "default_size"%string = Some (VFloat (40 # 1)) /\
   load_config py_float py_int
       (snd (set_config py_float py_int ["default_size=40"%string] f)) environ
     !! "default_size"%string = Some (VFloat (40 # 1))) /\
  (forall (items : list string) (item k v : string),
     In item items -> split_eq item = Some (k, v) ->
     schema_lookup k CONFIG_SCHEMA = None ->
     snd (set_config py_float py_int items f) = f /\
     forall u, fst (set_config py_float py_int items f) = ConfigUpdated u -> False).
Proof.
  intros H40. split.
  - assert (Hset : set_config py_float py_int ["default_size=40"%string] f
                   = (ConfigUpdated {[ "default_size"%string := VFloat (40 # 1) ]},
                      JsonObject ({[ "default_size"%string := VFloat (40 # 1) ]}
                                  ∪ read_entries f))).
    { unfold set_config. cbn [collect_updates].
      change (split_eq "default_size=40") with (Some ("default_size"%string, "40"%string)).
      cbn [schema_lookup CONFIG_SCHEMA String.eqb Ascii.eqb Bool.eqb s_type coerce].
      rewrite H40. cbn [fmap option_fmap option_map update_config fst].
      now rewrite insert_empty. }
    rewrite Hset. cbn [fst snd].
    assert (Hfile : read_entries
                      (JsonObject ({[ "default_size"%string := VFloat (40 # 1) ]}
                                   ∪ read_entries f))
                    !! "default_size"%string = Some (VFloat (40 # 1))).
    { cbn [read_entries]. apply lookup_union_Some_l. apply lookup_singleton_eq. }
    split; [reflexivity|]. split; [exact Hfile|].
    eapply load_config_from_file; [reflexivity|exact Hfile].
  - intros items item k v Hin Hsplit Hk. unfold set_config.
    destruct (collect_updates py_float py_int items ∅) as [u| | |] eqn:Hc;
      cbn [fst snd]; try (split; [reflexivity|discriminate]).
    exfalso. eapply collect_updates_unknown_key; eauto.
Qed.
End ConfigFacts.

(** C9 with the decimal parsers, from a missing file and an empty
    environment. *)
Lemma config_round_trip_witness :
  load_config float_literal int_literal
      (snd (set_config float_literal int_literal ["default_size=40"%string] NoFile)) ∅
    !! "default_size"%string = Some (VFloat (40 # 1)).
Proof.
  refine (proj2 (proj2 (proj1
            (config_round_trip float_literal int_literal NoFile ∅ _)))).
  vm_compute. reflexivity.
Defined.

(** An update with a valid item and an unknown key changes nothing. *)
Example unknown_key_rejected (entries : gmap string value) :
  set_config float_literal int_literal
    ["default_size=40"%string; "colour=red"%string] (JsonObject entries)
  = (UnknownKey "colour", JsonObject entries).
Proof. reflexivity. Qed.

(* ================================================================== *)
(** ** More on [walk_book]: every ladder, every budget *)

Lemma valid_positive (o : level Q) : valid o = true -> positive_level o.
Proof.
  unfold valid, positive_level, price_of, size_of. pyQ.
  rewrite negb_true_iff, orb_false_iff. intros [Hp Hs]. Qbool. split; lra.
Qed.

Lemma filter_valid_positive (asks : list (level Q)) :
  Forall positive_level (List.filter valid asks).
Proof.
  apply List.Forall_forall. intros o Ho. apply filter_In in Ho as [_ Hv].
  now apply valid_positive.
Qed.

Lemma walk_book_valid_only (asks : list (level Q)) (budget : Q) :
  walk_book asks budget = walk_book (List.filter valid asks) budget.
Proof.
  symmetry. apply (walk_book_filter_valid (fun _ => True)); [exact Q_strict_weak|].
  apply List.Forall_forall. auto.
Qed.

Lemma total_size_nonneg l : Forall positive_level l -> 0 <= total_size l.
Proof.
  induction 1 as [|o l [_ Ho] _ IH]; simpl; lra.
Qed.

(** What the walk returns on a budget that is not negative, in terms of
    the depth of the levels it does not skip. *)
Lemma walk_book_cost (asks : list (level Q)) (budget : Q) :
  0 <= budget ->
  0 <= fst (walk_book asks budget) /\
  0 <= snd (walk_book asks budget) /\
  snd (walk_book asks budget) <= budget /\
  (budget <= depth (List.filter valid asks) -> snd (walk_book asks budget) == budget) /\
  (depth (List.filter valid asks) <= budget ->
   snd (walk_book asks budget) == depth (List.filter valid asks)).
Proof.
  intros Hb. rewrite walk_book_valid_only.
  pose proof (filter_valid_positive asks) as Hpos.
  set (l := List.filter valid asks) in *.
  pose proof (sorted_positive l Hpos) as Hs.
  unfold walk_book. change (@lit Q Q_float 0 1) with (0 # 10).
  destruct (walk_levels_fill (sorted nltb sort_key l) (0 # 10) (0 # 10) budget Hs Hb)
    as (whole & rest & Heq & Hd & Hrest).
  assert (Hperm : Permutation l (whole ++ rest)).
  { rewrite <- Heq. symmetry. apply sorted_perm. }
  assert (Hdepth : depth l == depth whole + depth rest).
  { rewrite (depth_Permutation _ _ Hperm). apply depth_app. }
  rewrite Heq in Hs. apply Forall_app in Hs as [Hw Hr].
  pose proof (depth_nonneg whole Hw) as Hdw.
  pose proof (depth_nonneg rest Hr) as Hdr.
  pose proof (total_size_nonneg whole Hw) as Hsw.
  destruct rest as [|o rest].
  - destruct Hrest as [H1 H2]. simpl in Hdepth. repeat split; intros; lra.
  - destruct Hrest as (Hlt & H1 & H2).
    inversion Hr as [|? ? Ho Hr']; subst.
    pose proof (depth_nonneg rest Hr') as Hdr'. pose proof (notional_pos o Ho) as Hn.
    simpl in Hdepth, Hdr.
    assert (0 <= (budget - depth whole) / price_of o).
    { apply Qle_shift_div_l; [apply Ho|]. lra. }
    repeat split; intros; lra.
Qed.

(** X1.  The walk never spends more than the budget: for every ladder,
    malformed levels included, and every budget that is not negative,
    the shares and the cost are not negative, and the cost is the smaller
    of the budget and the depth of the levels that are not skipped. *)
Theorem walk_book_within_budget (asks : list (level Q)) (budget : Q) :
  0 <= budget ->
  0 <= fst (walk_book asks budget) /\
  0 <= snd (walk_book asks budget) /\
  snd (walk_book asks budget) <= budget /\
  (budget <= depth (List.filter valid asks) -> snd (walk_book asks budget) == budget) /\
  (depth (List.filter valid asks) <= budget ->
   snd (walk_book asks budget) == depth (List.filter valid asks)).
Proof.
  exact (walk_book_cost asks budget).
Qed.

(** On the worked example with a budget of 20. *)
Lemma walk_book_within_budget_witness :
  snd (walk_book (example_asks (A := Q)) (lit 20 0)) <= lit 20 0.
Proof.
  refine (proj1 (proj2 (proj2 (walk_book_within_budget example_asks (lit 20 0) _)))).
  vm_compute. discriminate.
Defined.

Lemma walk_levels_shares_grow (l : list (level Q)) : forall s c r,
  Forall positive_level l -> 0 <= r -> s <= fst (walk_levels l s c r).
Proof.
  induction l as [|o l IH]; intros s c r Hl Hr; [simpl; lra|].
  inversion Hl as [|? ? Ho Hl']; subst.
  pose proof (positive_valid o Ho) as Hv. pose proof (notional_pos o Ho) as Hn.
  unfold valid in Hv. apply negb_true_iff in Hv.
  cbn [walk_levels]. rewrite Hv. pyQ.
  fold (price_of o) (size_of o) (notional o).
  destruct (Qle_bool (notional o) r) eqn:E; Qbool.
  - specialize (IH (s + size_of o) (c + notional o) (r - notional o) Hl').
    destruct Ho. lra.
  - cbn [fst]. assert (0 <= r / price_of o) by (apply Qle_shift_div_l; [apply Ho|lra]).
    lra.
Qed.

Lemma walk_levels_monotone (l : list (level Q)) : forall s1 s2 c1 c2 r1 r2,
  Forall positive_level l -> 0 <= r1 -> r1 <= r2 -> s1 <= s2 ->
  fst (walk_levels l s1 c1 r1) <= fst (walk_levels l s2 c2 r2).
Proof.
  induction l as [|o l IH]; intros s1 s2 c1 c2 r1 r2 Hl Hr1 Hr Hs; [simpl; lra|].
  inversion Hl as [|? ? Ho Hl']; subst.
  pose proof (positive_valid o Ho) as Hv. pose proof (notional_pos o Ho) as Hn.
  unfold valid in Hv. apply negb_true_iff in Hv.
  cbn [walk_levels]. rewrite Hv. pyQ.
  fold (price_of o) (size_of o) (notional o).
  assert (Hp : 0 < price_of o) by apply Ho.
  destruct (Qle_bool (notional o) r1) eqn:E1, (Qle_bool (notional o) r2) eqn:E2; Qbool.
  - apply IH; auto; lra.
  - lra.
  - cbn [fst].
    pose proof (walk_levels_shares_grow l (s2 + size_of o) (c2 + notional o)
                  (r2 - notional o) Hl') as Hg.
    assert (r1 / price_of o <= size_of o).
    { apply Qle_shift_div_r; [exact Hp|]. unfold notional in *. lra. }
    lra.
  - cbn [fst].
    assert (r1 / price_of o <= r2 / price_of o).
    { unfold Qdiv. apply Qmult_le_compat_r; [exact Hr|].
      apply Qlt_le_weak, Qinv_lt_0_compat, Hp. }
    lra.
Qed.

(** X2.  A larger budget never buys fewer shares nor costs less. *)
Theorem walk_book_monotone (asks : list (level Q)) (b1 b2 : Q) :
  0 <= b1 -> b1 <= b2 ->
  fst (walk_book asks b1) <= fst (walk_book asks b2) /\
  snd (walk_book asks b1) <= snd (walk_book asks b2).
Proof.
  intros H1 H12. split.
  - rewrite (walk_book_valid_only asks b1), (walk_book_valid_only asks b2).
    unfold walk_book.
    apply walk_levels_monotone; auto; [|lra].
    apply sorted_positive, filter_valid_positive.
  - destruct (walk_book_cost asks b1 H1) as (_ & _ & Hc1 & Hin1 & Hout1).
    assert (H2 : 0 <= b2) by lra.
    destruct (walk_book_cost asks b2 H2) as (_ & _ & Hc2 & Hin2 & Hout2).
    destruct (Qlt_le_dec (depth (List.filter valid asks)) b2) as [Hd|Hd].
    + destruct (Qlt_le_dec (depth (List.filter valid asks)) b1) as [Hd1|Hd1].
      * rewrite Hout1, Hout2; lra.
      * rewrite Hin1, Hout2; lra.
    + rewrite Hin1, Hin2; lra.
Qed.

(** On the worked example: 10 buys less than 20. *)
Lemma walk_book_monotone_witness :
  fst (walk_book (example_asks (A := Q)) (lit 10 0))
    <= fst (walk_book (example_asks (A := Q)) (lit 20 0)).
Proof.
  refine (proj1 (walk_book_monotone example_asks (lit 10 0) (lit 20 0) _ _));
    vm_compute; discriminate.
Defined.

Section NothingToBuy.
Context {A : Type} `{PyFloat A}.

Lemma walk_levels_all_skipped (l : list (level A)) (s c r : A) :
  Forall (fun o => valid o = false) l -> walk_levels l s c r = (s, c).
Proof.
  induction 1 as [|o l Ho _ IH]; [reflexivity|].
  cbn [walk_levels]. unfold valid in Ho. apply negb_false_iff in Ho.
  now rewrite Ho.
Qed.

(** X3.  A ladder without a usable level (empty, or with malformed levels
    only) gives zero shares at zero cost, whatever the budget and in
    every arithmetic. *)
Theorem walk_book_nothing_to_buy (asks : list (level A)) (budget : A) :
  Forall (fun o => valid o = false) asks ->
  walk_book asks budget = (lit 0 1, lit 0 1).
Proof.
  intros Hs. unfold walk_book. apply walk_levels_all_skipped.
  eapply Permutation_Forall; [symmetry; apply sorted_perm|exact Hs].
Qed.
End NothingToBuy.

(** In binary64, on a ladder with a zero price, a missing price, a
    negative size and a missing size. *)
Lemma walk_book_nothing_to_buy_witness :
  walk_book (useless_asks (A := float)) (lit 20 0) = (lit 0 1, lit 0 1).
Proof.
  apply walk_book_nothing_to_buy. repeat constructor.
Defined.

(** X4.  A negative budget is not refused.  In exact arithmetic the walk
    stops at the cheapest usable level and returns the budget as cost and
    the negative quotient [budget / price] as shares.  Binary64 does the
    same up to rounding: on the worked example a budget of -10 gives
    (-20.0, -10.0); the smallest negative budget at price 2 gives shares
    that round to 0.0; and a level whose price is NaN, which is not
    skipped, gives NaN shares. *)
Theorem walk_book_negative_budget :
  (forall (asks : list (level Q)) (budget : Q),
     budget < 0 ->
     (exists o, In o asks /\ valid o = true) ->
     exists o, In o asks /\ valid o = true /\
       (forall o', In o' asks -> valid o' = true -> price_of o <= price_of o') /\
       fst (walk_book asks budget) == budget / price_of o /\
       snd (walk_book asks budget) == budget /\
       fst (walk_book asks budget) < 0) /\
  walk_book (example_asks (A := float)) (lit (-10) 0) = ((-20)%float, (-10)%float) /\
  walk_book [ {| price := Some 2%float; size := Some 1%float |} ] (-0x1p-1074)%float
    = (0%float, (-0x1p-1074)%float) /\
  walk_book [ {| price := Some PrimFloat.nan; size := Some 1%float |} ] (-1)%float
    = (PrimFloat.nan, (-1)%float).
Proof.
  split; [|repeat split; vm_compute; reflexivity].
  intros asks budget Hb (o0 & Hin0 & Hv0).
  rewrite (walk_book_valid_only asks budget).
  pose proof (filter_valid_positive asks) as Hpos.
  pose proof (sorted_price_ascending _ Hpos) as Hasc.
  pose proof (sorted_positive _ Hpos) as Hs.
  pose proof (sorted_perm nltb sort_key (List.filter valid asks)) as Hperm.
  unfold walk_book.
  destruct (sorted nltb sort_key (List.filter valid asks)) as [|o rest] eqn:Hsort.
  - exfalso. apply Permutation_nil in Hperm.
    assert (Hin : In o0 (List.filter valid asks)) by (apply filter_In; auto).
    rewrite Hperm in Hin. inversion Hin.
  - assert (Hino : In o (List.filter valid asks)).
    { eapply Permutation_in; [exact Hperm|now left]. }
    apply filter_In in Hino as [Hino Hvo].
    inversion Hs as [|? ? Ho _]; subst.
    inversion Hasc as [|? ? _ Hle]; subst.
    exists o. split; [exact Hino|]. split; [exact Hvo|]. split.
    { intros o' Hin' Hv'.
      assert (Hin'' : In o' (o :: rest)).
      { eapply Permutation_in; [symmetry; exact Hperm|]. apply filter_In; auto. }
      destruct Hin'' as [->|Hr]; [lra|].
      rewrite List.Forall_forall in Hle. auto. }
    pose proof (notional_pos o Ho) as Hn.
    unfold valid in Hvo. apply negb_true_iff in Hvo.
    cbn [walk_levels]. rewrite Hvo. pyQ.
    fold (price_of o) (size_of o) (notional o).
    assert (E : Qle_bool (notional o) budget = false).
    { apply not_true_is_false. intros E. Qbool. lra. }
    rewrite E. cbn [fst snd].
    assert (Hq : budget / price_of o < 0).
    { apply Qlt_shift_div_r; [apply Ho|]. lra. }
    repeat split; lra.
Qed.

(** On the worked example with a budget of -10: -20 shares at 0.50. *)
Lemma walk_book_negative_budget_witness :
  exists o, In o (example_asks (A := Q)) /\ valid o = true /\
    (forall o', In o' example_asks -> valid o' = true -> price_of o <= price_of o') /\
    fst (walk_book example_asks (lit (-10) 0)) == lit (-10) 0 / price_of o /\
    snd (walk_book example_asks (lit (-10) 0)) == lit (-10) 0 /\
    fst (walk_book example_asks (lit (-10) 0)) < 0.
Proof.
  apply (proj1 walk_book_negative_budget).
  - reflexivity.
  - eexists. split; [left; reflexivity|]. reflexivity.
Defined.

(** X5.  On a book of positive levels whose first ask has the lowest
    price, and for a positive budget, exact arithmetic gives [best_ask]
    that price, an average fill price that is at least [best_ask] and a
    slippage that is not negative.  In binary64 the quotient
    [cost / shares] can round below [best_ask]: on 1000 shares at 0.68
    and 1000 at 0.99 with a budget of 25 it is 0.67999999999999994, and
    the reported slippage is -0.0. *)
Theorem first_lowest_slippage :
  (forall (cfg : config Q) (fetch : string -> book_response Q) (tok : string)
          (usdc : Q) (o : level Q) (asks bids : list (level Q)) (e : fill_estimate Q),
     fetch tok = Book (o :: asks) bids ->
     Forall positive_level (o :: asks) ->
     Forall (fun o' => price_of o <= price_of o') asks ->
     0 < usdc ->
     analyze_book cfg fetch tok usdc = Estimate e ->
     best_ask e = Some (price_of o) /\
     (0 < fst (walk_book (o :: asks) usdc) ->
      price_of o <= snd (walk_book (o :: asks) usdc) / fst (walk_book (o :: asks) usdc)) /\
     0 <= slippage_pct e) /\
  PrimFloat.div (snd (walk_book rounding_asks (lit 25 0)))
                (fst (walk_book rounding_asks (lit 25 0)))
    = 0.67999999999999994%float /\
  PrimFloat.ltb (PrimFloat.div (snd (walk_book rounding_asks (lit 25 0)))
                               (fst (walk_book rounding_asks (lit 25 0))))
                (lit 68 2) = true /\
  analyze_book default_config (fun _ => Book rounding_asks []) "yes" (lit 25 0)
    = Estimate rounding_estimate.
Proof.
  split; [|repeat split; vm_compute; reflexivity].
  intros cfg fetch tok usdc o asks bids e.
  apply slippage_nonneg_when_first_is_lowest.
Qed.

(** The exact part on the worked example. *)
Lemma first_lowest_slippage_witness :
  0 <= slippage_pct (example_estimate (A := Q)).
Proof.
  refine (proj2 (proj2
    (proj1 first_lowest_slippage default_config
       (fun _ => Book example_asks []) "yes"%string (lit 20 0)
       {| price := Some (lit 50 2); size := Some (lit 20 0) |}
       [ {| price := Some (lit 55 2); size := Some (lit 30 0) |} ] []
       example_estimate eq_refl _ _ _ _))).
  - repeat constructor.
  - repeat constructor. vm_compute. discriminate.
  - reflexivity.
  - vm_compute. reflexivity.
Defined.

Section BookErrors.
Context {A : Type} `{PyFloat A}.

Lemma depth_from_complete (asks : list (level A)) : forall acc,
  forallb (fun o => has_field (price o) && has_field (size o)) asks = true ->
  exists d, depth_from acc asks = inr d.
Proof.
  induction asks as [|o asks IH]; intros acc Hc; [simpl; eauto|].
  cbn [forallb] in Hc. apply andb_true_iff in Hc as [Ho Hc].
  apply andb_true_iff in Ho as [Hp Hs]. cbn [depth_from].
  destruct (price o); [|discriminate]. destruct (size o); [|discriminate].
  now apply IH.
Qed.

Lemma depth_from_incomplete (asks : list (level A)) : forall acc,
  forallb (fun o => has_field (price o) && has_field (size o)) asks = false ->
  exists k, depth_from acc asks = inl k.
Proof.
  induction asks as [|o asks IH]; intros acc Hc; [discriminate|].
  cbn [forallb] in Hc. cbn [depth_from].
  destruct (price o); [|eauto]. destruct (size o); [|eauto].
  cbn in Hc. now apply IH.
Qed.

(** X6.  What [analyze_book] returns, by what [fetch_book] gave: the
    error message for a falsy answer and for an error envelope, whose
    text is not empty; for any other object an estimate when every ask
    has a price and a size and the first bid, if any, a price, and a
    [KeyError] otherwise, although [walk_book] itself would read such
    levels as absent.  A failed request whose error text is empty is such
    an object: it is priced as a book without asks. *)
Theorem analyze_book_outcomes (cfg : config A) (fetch : string -> book_response A)
    (tok : string) (usdc : A) :
  match fetch tok with
  | NoResponse =>
      analyze_book cfg fetch tok usdc = ClobError "CLOB error: no response"
  | ErrorEnvelope first rest =>
      analyze_book cfg fetch tok usdc
      = ClobError ("CLOB error: " ++ String first rest)
  | Book asks bids =>
      if complete_book asks bids
      then exists e, analyze_book cfg fetch tok usdc = Estimate e /\
                     best_ask e = match asks with [] => None | o :: _ => price o end /\
                     best_bid e = match bids with [] => None | b :: _ => price b end
      else exists k, analyze_book cfg fetch tok usdc = KeyError k /\
                     (k = "price"%string \/ k = "size"%string)
  end /\
  (forall first rest,
     analyze_book cfg (fun _ => failed_request (String first rest)) tok usdc
     = ClobError ("CLOB error: " ++ String first rest)) /\
  analyze_book cfg (fun _ => failed_request "") tok usdc
  = Estimate (analyze cfg [] usdc None None (lit 0 0)).
Proof.
  split; [|split; reflexivity].
  unfold analyze_book. destruct (fetch tok) as [|c e|asks bids]; try reflexivity.
  unfold complete_book.
  destruct (forallb _ asks) eqn:Hasks; cbn [andb].
  - destruct (depth_from_complete asks (lit 0 0) Hasks) as [d Hd].
    assert (Hba : first_price asks = Some (match asks with [] => None | o :: _ => price o end)).
    { destruct asks as [|o asks]; [reflexivity|]. cbn [forallb] in Hasks.
      apply andb_true_iff in Hasks as [Ho _]. apply andb_true_iff in Ho as [Hp _].
      cbn [first_price]. now destruct (price o). }
    rewrite Hba, Hd.
    destruct bids as [|b bids]; cbn [first_price].
    + eexists. split; [reflexivity|]. unfold analyze. now destruct (walk_book asks usdc).
    + destruct (price b); cbn [has_field].
      * eexists. split; [reflexivity|]. unfold analyze. now destruct (walk_book asks usdc).
      * eexists. split; [reflexivity|]. now left.
  - destruct (depth_from_incomplete asks (lit 0 0) Hasks) as [k Hk].
    destruct (first_price asks) as [ba|]; [|eexists; split; [reflexivity|now left]].
    destruct (first_price bids) as [bb|]; [|eexists; split; [reflexivity|now left]].
    rewrite Hk. exists k. split; [reflexivity|].
    clear -Hk. revert Hk. generalize (lit 0 0). induction asks as [|o asks IH]; intros acc.
    + discriminate.
    + cbn [depth_from]. destruct (price o); [|intros Hk; inversion Hk; now left].
      destruct (size o); [|intros Hk; inversion Hk; now right]. apply IH.
Qed.

(** X7.  The warnings of an estimate: at most one slippage warning, BLOCKED or
    high slippage and never both, followed by at most one
    insufficient-liquidity warning. *)
Theorem warnings_shape (cfg : config A) (fetch : string -> book_response A)
    (tok : string) (usdc : A) (e : fill_estimate A) :
  analyze_book cfg fetch tok usdc = Estimate e ->
  exists sw lw, warnings e = sw ++ lw /\
    (sw = [] \/ sw = [BLOCKED (slippage_pct e) (slippage_block cfg)]
     \/ sw = [HighSlippage (slippage_pct e)]) /\
    (lw = [] \/ exists c, lw = [InsufficientLiquidity c]) /\
    existsb is_BLOCKED (warnings e) && existsb is_high_slippage (warnings e) = false.
Proof.
  intros He.
  destruct (analyze_book_Estimate _ _ _ _ _ He)
    as (asks & bids & ba & bb & d & _ & _ & _ & _ & ->).
  rewrite analyze_warnings.
  set (s := slippage_pct (analyze cfg asks usdc ba bb d)).
  exists (slippage_warnings cfg s), (liquidity_warnings (snd (walk_book asks usdc)) usdc).
  split; [reflexivity|].
  unfold slippage_warnings, liquidity_warnings.
  destruct (nltb (slippage_block cfg) s); [|destruct (nltb (slippage_warn cfg) s)];
    destruct (nltb _ (nmul usdc _)); cbn; repeat split; eauto.
Qed.
End BookErrors.

(** On the worked example: one high-slippage warning and nothing else. *)
Lemma warnings_shape_witness :
  exists sw lw, warnings (example_estimate (A := float)) = sw ++ lw /\
    (sw = [] \/ sw = [BLOCKED (slippage_pct example_estimate) (slippage_block default_config)]
     \/ sw = [HighSlippage (slippage_pct example_estimate)]) /\
    (lw = [] \/ exists c, lw = [InsufficientLiquidity c]) /\
    existsb is_BLOCKED (warnings (example_estimate (A := float)))
      && existsb is_high_slippage (warnings (example_estimate (A := float))) = false.
Proof.
  apply (warnings_shape default_config (fun _ => Book example_asks []) "yes"%string (lit 20 0)).
  vm_compute. reflexivity.
Defined.

(* ================================================================== *)
(** ** More on [discover] *)

Lemma ts_lt_strict_weak : strict_weak_on (fun _ : option Q => True) ts_lt.
Proof.
  split.
  - intros [a|] [b|] _ _; simpl; try congruence.
    intros Hab. apply Qltb_true in Hab. apply Qltb_false. lra.
  - intros [a|] [b|] [c|] _ _ _; simpl; try tauto; try congruence.
    intros Hac. apply Qltb_true in Hac.
    destruct (Qltb a b) eqn:E; [now left|right].
    apply Qltb_false in E. apply Qltb_true. lra.
Qed.

Section SortedHead.
Context {X K : Type} (lt : K -> K -> bool) (key : X -> K).

(** The head of the stable sort stands in the input after elements of
    strictly larger key only: among equal keys the first one wins. *)
Lemma stable_sort_head_first (l : list X) (x : X) (rest : list X) :
  stable_sort lt key l = x :: rest ->
  exists l1 l2, l = l1 ++ x :: l2 /\
    forall y, In y l1 -> lt (key x) (key y) = true.
Proof.
  revert x rest. induction l as [|a l IH]; intros x rest Hs; [discriminate|].
  cbn [stable_sort fold_right] in Hs. fold (stable_sort lt key l) in Hs.
  destruct (stable_sort lt key l) as [|h t] eqn:Hl.
  - inversion Hs; subst. exists [], l. split; [reflexivity|]. intros y [].
  - cbn [insert_sorted] in Hs. destruct (lt (key h) (key a)) eqn:E.
    + inversion Hs; subst.
      destruct (IH x t eq_refl) as (l1 & l2 & -> & Hbefore).
      exists (a :: l1), l2. split; [reflexivity|].
      intros y [<-|Hy]; auto.
    + inversion Hs; subst. exists [], l. split; [reflexivity|]. intros y [].
Qed.

Lemma sorted_head_first (P : K -> Prop) (l : list X) (x : X) (rest : list X) :
  strict_weak_on P lt -> Forall (fun y => P (key y)) l ->
  sorted lt key l = x :: rest ->
  exists l1 l2, l = l1 ++ x :: l2 /\
    forall y, In y l1 -> lt (key x) (key y) = true.
Proof.
  intros Hlt Hk Hs. rewrite (sorted_stable lt key P Hlt l Hk) in Hs.
  now apply stable_sort_head_first with rest.
Qed.

(** Under the order laws no element has a smaller key than the head. *)
Lemma sorted_head_least (P : K -> Prop) (l : list X) (x : X) (rest : list X) :
  strict_weak_on P lt -> Forall (fun y => P (key y)) l ->
  sorted lt key l = x :: rest ->
  forall y, In y l -> lt (key y) (key x) = false.
Proof.
  intros Hlt Hk Hs y Hy.
  pose proof (sorted_ascending lt key P Hlt l Hk) as Hasc.
  pose proof (sorted_keys lt key P l Hk) as Hks.
  rewrite Hs in Hasc, Hks. inversion Hasc as [|? ? _ Hle]; subst.
  inversion Hks as [|? ? Hx _]; subst.
  assert (Hin : In y (x :: rest)).
  { rewrite <- Hs. eapply Permutation_in; [symmetry; apply sorted_perm|exact Hy]. }
  destruct Hin as [<-|Hr].
  - now apply (lt_irrefl lt P Hlt).
  - rewrite List.Forall_forall in Hle. auto.
Qed.
End SortedHead.

Lemma filter_split {X : Type} (f : X -> bool) (l : list X) (l1 : list X) (x : X) (l2 : list X) :
  List.filter f l = l1 ++ x :: l2 ->
  exists before after, l = before ++ x :: after /\ List.filter f before = l1 /\
                       f x = true.
Proof.
  revert l1. induction l as [|a l IH]; intros l1 Hf.
  - destruct l1; discriminate.
  - cbn [List.filter] in Hf. destruct (f a) eqn:Fa.
    + destruct l1 as [|b l1]; cbn [app] in Hf; injection Hf as Ha Hf.
      * subst a. exists [], l. cbn. auto.
      * subst b. destruct (IH l1 Hf) as (before & after & Hl & Hb & Fx).
        exists (a :: before), after. cbn. rewrite Fa, Hl, Hb. auto.
    + destruct (IH l1 Hf) as (before & after & Hl & Hb & Fx).
      exists (a :: before), after. cbn. rewrite Fa, Hl, Hb. auto.
Qed.

(** X9.  Why [discover] fails: the error text of a failed request is
    passed on when it is not empty; with an empty error text the answer
    passes the test of line 118 and is iterated like a list, and
    [discover] raises [AttributeError] at its first key; and
    NoActiveMarket is returned exactly when no listed market matches the
    search phrase. *)
Theorem discover_failures (lib : library) :
  (forall c e, discover lib (GammaError (String c e))
               = inl (GammaApiError (String c e))) /\
  discover lib (GammaError "") = inl (Uncaught "AttributeError") /\
  (forall ms e, discover lib (Markets ms) = inl (GammaApiError e) -> False) /\
  (forall ms, discover lib (Markets ms) = inl NoActiveMarket <->
              forallb (fun m => negb (is_match m)) ms = true).
Proof.
  split; [reflexivity|]. split; [reflexivity|]. split.
  - intros ms e. unfold discover.
    destruct (sorted ts_lt (end_ts lib) (List.filter is_match ms)) as [|mo rest];
      [discriminate|].
    destruct (identifiers lib mo) as [exc|[|id0 [|id1 ids]]]; try discriminate.
    destruct id0; [discriminate|].
    destruct (fromisoformat lib (raw_end mo)) as [[t clock|t]|]; discriminate.
  - intros ms.
    assert (Hnil : List.filter is_match ms = [] <->
                   forallb (fun m => negb (is_match m)) ms = true).
    { induction ms as [|m ms IH]; cbn; [tauto|].
      destruct (is_match m); cbn; [split; discriminate|exact IH]. }
    rewrite <- Hnil. unfold discover.
    pose proof (sorted_perm ts_lt (end_ts lib) (List.filter is_match ms)) as Hp.
    destruct (sorted ts_lt (end_ts lib) (List.filter is_match ms)) as [|mo rest].
    + apply Permutation_nil in Hp. tauto.
    + split.
      * destruct (identifiers lib mo) as [exc|[|id0 [|id1 ids]]]; try discriminate.
        destruct id0; [discriminate|].
        destruct (fromisoformat lib (raw_end mo)) as [[t clock|t]|]; discriminate.
      * intros Hn. rewrite Hn in Hp. symmetry in Hp.
        apply Permutation_nil in Hp. discriminate.
Qed.

(** X10.  Which market [discover] reads: the matching market that closes
    first, an unparsable end date counting as never; among matching
    markets that close together, the one listed first.  The record's
    identifiers and title are that market's. *)
Theorem discover_selects_earliest (lib : library) (ms : list market_obj) (m : market) :
  discover lib (Markets ms) = inr m ->
  exists before mo after ids,
    ms = before ++ mo :: after /\ is_match mo = true /\
    (forall m', In m' ms -> is_match m' = true ->
                ts_lt (end_ts lib m') (end_ts lib mo) = false) /\
    (forall m', In m' before -> is_match m' = true ->
                ts_lt (end_ts lib mo) (end_ts lib m') = true) /\
    token_ids lib mo = yes_token m :: no_token m :: ids /\
    m_title m = or_str (question mo) (title mo).
Proof.
  intros Hd.
  destruct (discover_first_token lib ms m Hd) as (mo & rest & ids & Hs & Hids & _).
  assert (Hk : Forall (fun _ : market_obj => True) (List.filter is_match ms))
    by (apply List.Forall_forall; auto).
  destruct (sorted_head_first ts_lt (end_ts lib) (fun _ => True) _ _ _
              ts_lt_strict_weak Hk Hs) as (l1 & l2 & Hf & Hfirst).
  clear Hk.
  destruct (filter_split is_match ms l1 mo l2 Hf) as (before & after & -> & Hb & Hm).
  exists before, mo, after, ids. split; [reflexivity|]. split; [exact Hm|].
  split; [|split; [|split; [exact Hids|]]].
  - intros m' Hin Hm'.
    apply (sorted_head_least ts_lt (end_ts lib) (fun _ => True)
             (List.filter is_match (before ++ mo :: after)) mo rest
             ts_lt_strict_weak); auto.
    + apply List.Forall_forall. auto.
    + apply filter_In. auto.
  - intros m' Hin Hm'. apply Hfirst. rewrite <- Hb. apply filter_In. auto.
  - unfold discover in Hd. rewrite Hs, (token_ids_inr _ _ _ _ Hids) in Hd.
    destruct (yes_token m); [discriminate|].
    destruct (fromisoformat lib (raw_end mo)) as [[t clock|t]|];
      inversion Hd; reflexivity.
Qed.

(** With two matching markets, the second listed closing first. *)
Lemma discover_selects_earliest_witness :
  exists before mo after ids,
    [later_listed; sooner_listed] = before ++ mo :: after /\ is_match mo = true /\
    (forall m', In m' [later_listed; sooner_listed] -> is_match m' = true ->
                ts_lt (end_ts two_ends m') (end_ts two_ends mo) = false) /\
    (forall m', In m' before -> is_match m' = true ->
                ts_lt (end_ts two_ends mo) (end_ts two_ends m') = true) /\
    token_ids two_ends mo = "7151"%string :: "7152"%string :: ids /\
    Some "BITCOIN PRICE 5 MINUTE"%string = or_str (question mo) (title mo).
Proof.
  apply (discover_selects_earliest two_ends [later_listed; sooner_listed]
           {| m_title := Some "BITCOIN PRICE 5 MINUTE"%string;
              yes_token := "7151"; no_token := "7152";
              end_time := "00:18:20 UTC"; seconds_remaining := 100;
              m_liquidity := 0 |}).
  vm_compute. reflexivity.
Defined.





(** X12.  MalformedMarket is returned exactly when the market read, the
    earliest-closing match, gives without an exception fewer than two
    identifiers or an empty first one; no other match is tried, so a
    well-formed market that closes later does not help.  When reading
    its identifiers raises, [discover] raises the same and returns
    nothing: a [TypeError] when the ["clobTokenIds"] text decodes to a
    number, an [AttributeError] when the outcomes are names and not
    objects.  A ["clobTokenIds"] text that decodes to a text is indexed
    by character. *)
Theorem discover_malformed_iff (lib : library) (ms : list market_obj) :
  (discover lib (Markets ms) = inl MalformedMarket <->
   exists mo rest ids,
     sorted ts_lt (end_ts lib) (List.filter is_match ms) = mo :: rest /\
     identifiers lib mo = inr ids /\
     ((length ids < 2)%nat \/ nth 0 ids EmptyString = EmptyString)) /\
  (forall exception,
     discover lib (Markets ms) = inl (Uncaught exception) <->
     exists mo rest,
       sorted ts_lt (end_ts lib) (List.filter is_match ms) = mo :: rest /\
       identifiers lib mo = inl exception) /\
  discover two_ends (Markets [later_listed; sooner_malformed]) = inl MalformedMarket /\
  discover two_ends (Markets [later_listed]) =
    inr {| m_title := Some "Bitcoin Price 5 Minute: Up or Down?"%string;
           yes_token := "7131"; no_token := "7132";
           end_time := "00:23:20 UTC"; seconds_remaining := 400;
           m_liquidity := 0 |} /\
  discover decoding (Markets [number_text]) = inl (Uncaught "TypeError") /\
  discover decoding (Markets [named_outcomes]) = inl (Uncaught "AttributeError") /\
  discover decoding (Markets [quoted_text]) =
    inr {| m_title := Some "Bitcoin Price 5 Minute: Up or Down?"%string;
           yes_token := "7"; no_token := "1";
           end_time := "00:18:20 UTC"; seconds_remaining := 100;
           m_liquidity := 0 |}.
Proof.
  split; [|split; [|repeat split; vm_compute; reflexivity]].
  - split.
    + unfold discover.
      destruct (sorted ts_lt (end_ts lib) (List.filter is_match ms)) as [|mo rest];
        [discriminate|].
      intros Hd. exists mo, rest.
      destruct (identifiers lib mo) as [exc|ids]; [discriminate|].
      exists ids. split; [reflexivity|]. split; [reflexivity|].
      destruct ids as [|id0 [|id1 ids]]; cbn; try (left; lia).
      destruct id0; [now right|].
      destruct (fromisoformat lib (raw_end mo)) as [[t clock|t]|]; discriminate.
    + intros (mo & rest & ids & Hs & Hids & Hbad). eapply discover_malformed; eauto.
  - intros exception. split.
    + unfold discover.
      destruct (sorted ts_lt (end_ts lib) (List.filter is_match ms)) as [|mo rest];
        [discriminate|].
      intros Hd. exists mo, rest. split; [reflexivity|].
      destruct (identifiers lib mo) as [exc|[|id0 [|id1 ids]]]; try discriminate.
      * now inversion Hd.
      * destruct id0; [discriminate|].
        destruct (fromisoformat lib (raw_end mo)) as [[t clock|t]|]; discriminate.
    + intros (mo & rest & Hs & Hids). unfold discover. now rewrite Hs, Hids.
Qed.

(* ================================================================== *)
(** ** More on the configuration *)

Lemma split_eq_joined (k v : string) :
  has_eq k = false -> split_eq (k ++ "=" ++ v) = Some (k, v).
Proof.
  change ("=" ++ v)%string with (String "="%char v).
  induction k as [|c k IH]; cbn [has_eq]; [reflexivity|].
  destruct (Ascii.eqb c "=") eqn:E; cbn [orb]; [discriminate|].
  intros Hk. simpl. now rewrite E, (IH Hk).
Qed.

(** X13.  [item.split("=", 1)]: the key is what precedes the first ["="] and
    the value everything after it, further ["="] included; an item
    without ["="] is the only one refused. *)
Theorem split_eq_first_equals (item : string) :
  (forall k v, has_eq k = false -> split_eq (k ++ "=" ++ v) = Some (k, v)) /\
  (forall k v, split_eq item = Some (k, v) ->
               item = (k ++ "=" ++ v)%string /\ has_eq k = false) /\
  (split_eq item = None <-> has_eq item = false).
Proof.
  split; [|split].
  - exact split_eq_joined.
  - induction item as [|c item IH]; intros k v; cbn [split_eq]; [discriminate|].
    change ("=" ++ v)%string with (String "="%char v) in *.
    destruct (Ascii.eqb_spec c "="%char) as [->|Hne].
    + intros Hs. inversion Hs; subst. auto.
    + destruct (split_eq item) as [[k' v']|]; [|discriminate].
      intros Hs. inversion Hs; subst.
      destruct (IH k' v eq_refl) as [-> Hk']. simpl.
      destruct (Ascii.eqb_spec c "="%char); [contradiction|]. auto.
  - induction item as [|c item IH]; cbn [split_eq has_eq]; [tauto|].
    destruct (Ascii.eqb c "="); cbn [orb]; [split; discriminate|].
    destruct (split_eq item) as [[k' v']|]; [|tauto].
    split; [discriminate|]. intros Hn. apply IH in Hn. discriminate.
Qed.

Section MoreConfigFacts.
Context (py_float : string -> option Q) (py_int : string -> option Z).

Lemma load_config_lookup (f : config_file) (environ : gmap string string) (k : string) :
  load_config py_float py_int f environ !! k =
  match schema_lookup k CONFIG_SCHEMA with
  | Some spec => Some (resolve py_float py_int (read_entries f) environ k spec)
  | None => None
  end.
Proof.
  unfold load_config, CONFIG_SCHEMA. cbn [fold_left schema_lookup].
  repeat match goal with
  | |- context [String.eqb k ?k'] =>
      destruct (String.eqb_spec k k') as [->|?];
      [ rewrite ?lookup_insert_ne by (intros Hc; discriminate Hc);
        rewrite lookup_insert_eq; reflexivity
      | ]
  end.
  repeat (rewrite lookup_insert_ne; [|intros Hc; symmetry in Hc; contradiction]).
  apply lookup_empty.
Qed.

(** X14.  How [load_config] resolves a setting: the value in the file, as it
    is and whatever its type; otherwise the converted value of a
    non-empty environment variable; otherwise, also when the conversion
    fails, the default.  The result holds the six settings and nothing
    else, whatever other keys the file has. *)
Theorem load_config_precedence (f : config_file) (environ : gmap string string)
    (k : string) :
  match schema_lookup k CONFIG_SCHEMA with
  | None => load_config py_float py_int f environ !! k = None
  | Some spec =>
      match read_entries f !! k with
      | Some v => load_config py_float py_int f environ !! k = Some v
      | None =>
          match environ !! s_env spec with
          | Some (String c raw) =>
              load_config py_float py_int f environ !! k =
              Some (match coerce py_float py_int (s_type spec) (String c raw) with
                    | Some v => v
                    | None => s_default spec
                    end)
          | _ => load_config py_float py_int f environ !! k = Some (s_default spec)
          end
      end
  end.
Proof.
  rewrite load_config_lookup.
  destruct (schema_lookup k CONFIG_SCHEMA) as [spec|] eqn:Hk; [|reflexivity].
  unfold resolve. destruct (read_entries f !! k); [reflexivity|].
  assert (Henv : exists c e, s_env spec = String c e).
  { unfold CONFIG_SCHEMA in Hk. cbn [schema_lookup] in Hk.
    repeat match type of Hk with
    | (if ?b then _ else _) = _ => destruct b; [inversion Hk; cbn; eauto|]
    end. discriminate. }
  destruct Henv as (c & e & ->).
  destruct (environ !! String c e) as [[|c' raw]|]; reflexivity.
Qed.

(** X15.  [update_config] merges: a setting it is given is what a reload
    returns, the other settings reload as before, and the file holds the
    given entries over the old ones (an unreadable file counts as empty). *)
Theorem update_config_then_load (f : config_file) (updates : gmap string value)
    (environ : gmap string string) (k : string) :
  read_entries (fst (update_config f updates)) = updates ∪ read_entries f /\
  snd (update_config f updates) = updates ∪ read_entries f /\
  (forall spec v, schema_lookup k CONFIG_SCHEMA = Some spec -> updates !! k = Some v ->
     load_config py_float py_int (fst (update_config f updates)) environ !! k = Some v) /\
  (updates !! k = None ->
     load_config py_float py_int (fst (update_config f updates)) environ !! k
     = load_config py_float py_int f environ !! k).
Proof.
  split; [reflexivity|]. split; [reflexivity|]. split.
  - intros spec v Hk Hv. rewrite load_config_lookup, Hk. unfold resolve.
    cbn [update_config fst read_entries].
    now rewrite (lookup_union_Some_l _ _ _ _ Hv).
  - intros Hn. rewrite !load_config_lookup.
    destruct (schema_lookup k CONFIG_SCHEMA); [|reflexivity].
    unfold resolve. cbn [update_config fst read_entries].
    now rewrite (lookup_union_r _ _ _ Hn).
Qed.

Lemma collect_updates_accepted (items : list string) : forall updates,
  forallb (accepted py_float py_int) items = true ->
  exists u, collect_updates py_float py_int items updates = ConfigUpdated u.
Proof.
  induction items as [|item items IH]; intros updates Hall; [cbn; eauto|].
  cbn [forallb] in Hall. apply andb_true_iff in Hall as [Hi Hall].
  unfold accepted in Hi. cbn [collect_updates].
  destruct (split_eq item) as [[k v]|]; [|discriminate].
  destruct (schema_lookup k CONFIG_SCHEMA) as [spec|]; [|discriminate].
  destruct (coerce py_float py_int (s_type spec) v); [|discriminate].
  now apply IH.
Qed.

Lemma collect_updates_refused (items : list string) : forall updates u,
  collect_updates py_float py_int items updates = ConfigUpdated u ->
  forallb (accepted py_float py_int) items = true.
Proof.
  induction items as [|item items IH]; intros updates u Hc; [reflexivity|].
  cbn [collect_updates] in Hc. cbn [forallb]. unfold accepted at 1.
  destruct (split_eq item) as [[k v]|]; [|discriminate].
  destruct (schema_lookup k CONFIG_SCHEMA) as [spec|]; [|discriminate].
  destruct (coerce py_float py_int (s_type spec) v); [|discriminate].
  cbn. eapply IH; eauto.
Qed.

(** X16.  [--set] is all or nothing: the file is written exactly when every
    item has an ["="], a key of the schema and a value that converts, and
    then it holds the collected updates over the old entries; when any
    item is refused the file stays as it was, whatever came before it. *)
Theorem set_config_all_or_nothing (items : list string) (f : config_file) :
  if forallb (accepted py_float py_int) items
  then exists u, set_config py_float py_int items f
                 = (ConfigUpdated u, JsonObject (u ∪ read_entries f))
  else snd (set_config py_float py_int items f) = f /\
       forall u, fst (set_config py_float py_int items f) = ConfigUpdated u -> False.
Proof.
  unfold set_config.
  destruct (forallb (accepted py_float py_int) items) eqn:Hall.
  - destruct (collect_updates_accepted items ∅ Hall) as [u ->]. eauto.
  - destruct (collect_updates py_float py_int items ∅) as [u| | |] eqn:Hc;
      cbn [fst snd]; try (split; [reflexivity|discriminate]).
    apply collect_updates_refused in Hc. congruence.
Qed.

Lemma collect_updates_app (items : list string) (item : string) : forall updates,
  collect_updates py_float py_int (items ++ [item]) updates =
  match collect_updates py_float py_int items updates with
  | ConfigUpdated u => collect_updates py_float py_int [item] u
  | refused => refused
  end.
Proof.
  induction items as [|i items IH]; intros updates; cbn [app collect_updates].
  - now destruct (collect_updates py_float py_int [item] updates).
  - destruct (split_eq i) as [[k v]|]; [|reflexivity].
    destruct (schema_lookup k CONFIG_SCHEMA) as [spec|]; [|reflexivity].
    destruct (coerce py_float py_int (s_type spec) v); [|reflexivity].
    apply IH.
Qed.

(** X17.  When a key is set more than once the last item wins: after a
    successful [--set] the reload returns the converted value of the
    last item, whatever the earlier items set. *)
Theorem set_config_last_wins (items : list string) (k v : string)
    (f : config_file) (environ : gmap string string) (u : gmap string value)
    (spec : schema_entry) :
  schema_lookup k CONFIG_SCHEMA = Some spec ->
  fst (set_config py_float py_int (items ++ [(k ++ "=" ++ v)%string]) f)
    = ConfigUpdated u ->
  has_eq k = false ->
  exists x, coerce py_float py_int (s_type spec) v = Some x /\
    u !! k = Some x /\
    load_config py_float py_int
      (snd (set_config py_float py_int (items ++ [(k ++ "=" ++ v)%string]) f)) environ
      !! k = Some x.
Proof.
  intros Hk Hset Hnoeq. unfold set_config in *.
  rewrite collect_updates_app in *.
  destruct (collect_updates py_float py_int items ∅) as [u0| | |]; try discriminate.
  cbn [collect_updates] in *.
  rewrite (split_eq_joined k v Hnoeq) in *.
  rewrite Hk in *.
  destruct (coerce py_float py_int (s_type spec) v) as [x|]; [|discriminate].
  cbn [fst snd] in *. inversion Hset; subst u.
  exists x. split; [reflexivity|]. split; [apply lookup_insert_eq|].
  rewrite load_config_lookup, Hk. unfold resolve. cbn [update_config fst read_entries].
  rewrite (lookup_union_Some_l _ _ k x); [reflexivity|apply lookup_insert_eq].
Qed.
End MoreConfigFacts.

(** Setting the size twice, from a file that already has one. *)
Lemma set_config_last_wins_witness :
  exists x, coerce float_literal int_literal TFloat "60" = Some x /\
    ({[ "default_size"%string := VFloat (60 # 1) ]} : gmap string value)
      !! "default_size"%string = Some x /\
    load_config float_literal int_literal
      (snd (set_config float_literal int_literal
              (["default_size=40"%string] ++ ["default_size=60"%string])
              (JsonObject {[ "default_size"%string := VFloat (25 # 1) ]}))) ∅
      !! "default_size"%string = Some x.
Proof.
  apply (set_config_last_wins float_literal int_literal ["default_size=40"%string]
           "default_size" "60"
           (JsonObject {[ "default_size"%string := VFloat (25 # 1) ]}) ∅
           {[ "default_size"%string := VFloat (60 # 1) ]}
           {| s_default := VFloat 25; s_env := "POLY_DEFAULT_SIZE"; s_type := TFloat |}).
  - reflexivity.
  - vm_compute. reflexivity.
  - reflexivity.
Defined.

(** Updating one setting and reloading another. *)
Lemma update_config_then_load_witness :
  load_config float_literal int_literal
    (fst (update_config NoFile {[ "default_size"%string := VFloat (40 # 1) ]})) ∅
    !! "default_size"%string = Some (VFloat (40 # 1)).
Proof.
  refine (proj1 (proj2 (proj2
    (update_config_then_load float_literal int_literal NoFile
       {[ "default_size"%string := VFloat (40 # 1) ]} ∅ "default_size")))
    {| s_default := VFloat 25; s_env := "POLY_DEFAULT_SIZE"; s_type := TFloat |}
    (VFloat (40 # 1)) _ _); reflexivity.
Defined.

(* ================================================================== *)
(** ** More on [run]: when an order is placed, and which *)

Section Orders.
Context {A : Type} `{PyFloat A}.

Lemma filter_none {B : Type} (f : B -> bool) (l : list B) :
  (forall x, In x l -> f x = false) -> List.filter f l = [].
Proof.
  induction l as [|x l IH]; cbn; [reflexivity|]. intros Hl.
  rewrite (Hl x (or_introl eq_refl)). apply IH. intros y Hy. apply Hl. now right.
Qed.

Lemma no_order_in_warnings (ws : list (warning A)) (ev : event A) :
  In ev (map (fun wn => Print (OutWarning wn)) ws) -> is_order ev = false.
Proof.
  intros Hin. apply in_map_iff in Hin as (wn & <- & _). reflexivity.
Qed.

Lemma no_order_in_report (resp : order_response) (ev : event A) :
  In ev (report_order resp) -> is_order ev = false.
Proof.
  unfold report_order. destruct resp as [e|orderID id status errorMsg]; cbn.
  - intros [<-|[]]. reflexivity.
  - intros [<-|Hin]; [reflexivity|].
    destruct (_ || _); destruct Hin as [<-|[]]; reflexivity.
Qed.

(** What [execute] requires of an order it places. *)
Lemma execute_order (cfg : config A) (w : world A) (args : cli_args A)
    (side token label : string) (size : A) (ev : event A) :
  In ev (execute cfg w args side token label size) -> is_order ev = true ->
  arg_live args = true /\ arg_book args = false /\ client_ready w = true /\
  ((chosen_order_type cfg args <> "GTC"%string /\ ev = PlaceFOK token side size) \/
   (chosen_order_type cfg args = "GTC"%string /\
    exists p, arg_price args = Some p /\ truthy p = true /\
              ev = PlaceGTC token side p size)).
Proof.
  unfold execute. fold (chosen_order_type cfg args).
  destruct (arg_book args); [intros []|].
  destruct (String.eqb_spec (chosen_order_type cfg args) "GTC") as [Hgtc|Hfok];
    cbn [andb].
  - destruct (truthy_num (arg_price args)) eqn:Hp; cbn [negb].
    + intros [<-|Hin]; [discriminate|].
      destruct (arg_live args); cbn [negb] in Hin; [|destruct Hin as [<-|[]]; discriminate].
      destruct Hin as [<-|[<-|Hin]]; try discriminate.
      destruct (client_ready w); cbn [negb] in Hin; [|destruct Hin as [<-|[]]; discriminate].
      destruct (arg_price args) as [p|] eqn:Hprice; [|discriminate].
      destruct Hin as [<-|Hin].
      * intros _. repeat split; auto. right. split; [exact Hgtc|].
        exists p. auto.
      * intros Ho. now rewrite (no_order_in_report _ _ Hin) in Ho.
    + intros [<-|[]]. discriminate.
  - intros [<-|Hin]; [discriminate|].
    destruct (arg_live args); cbn [negb] in Hin; [|destruct Hin as [<-|[]]; discriminate].
    destruct Hin as [<-|[<-|Hin]]; try discriminate.
    destruct (client_ready w); cbn [negb] in Hin; [|destruct Hin as [<-|[]]; discriminate].
    destruct Hin as [<-|Hin].
    + intros _. repeat split; auto.
    + intros Ho. now rewrite (no_order_in_report _ _ Hin) in Ho.
Qed.

Lemma execute_no_fetch (cfg : config A) (w : world A) (args : cli_args A)
    (side token label : string) (size : A) (ev : event A) :
  In ev (execute cfg w args side token label size) ->
  is_fetch ev = false /\ is_discover ev = false.
Proof.
  unfold execute. destruct (arg_book args); [intros []|].
  destruct (_ && _); [intros [<-|[]]; split; reflexivity|].
  intros [<-|Hin]; [split; reflexivity|].
  destruct (arg_live args); cbn [negb] in Hin;
    [|destruct Hin as [<-|[]]; split; reflexivity].
  destruct Hin as [<-|[<-|Hin]]; try (split; reflexivity).
  destruct (client_ready w); cbn [negb] in Hin;
    [|destruct Hin as [<-|[]]; split; reflexivity].
  cbn [app] in Hin. apply in_app_or in Hin as [Hin|Hin].
  - destruct (String.eqb _ "GTC"); [destruct (arg_price args)|];
      try destruct Hin as [<-|[]]; try (split; reflexivity). destruct Hin.
  - unfold report_order in Hin. destruct (post_order w) as [e|o i st em]; cbn in Hin.
    + destruct Hin as [<-|[]]. split; reflexivity.
    + destruct Hin as [<-|Hin]; [split; reflexivity|].
      destruct (_ || _); destruct Hin as [<-|[]]; split; reflexivity.
Qed.

Lemma price_book_no_discover (cfg : config A) (w : world A) (args : cli_args A)
    (m : market) (ev : event A) :
  In ev (price_book cfg w args m) -> is_discover ev = false.
Proof.
  unfold price_book. intros [<-|[<-|Hin]]; try reflexivity.
  destruct (analyze_book _ _ _ _) as [book|berr|k];
    try (destruct Hin as [<-|[]]; reflexivity).
  cbn [app] in Hin. destruct Hin as [<-|Hin]; [reflexivity|].
  apply in_app_or in Hin as [Hin|Hin].
  - apply in_map_iff in Hin as (wn & <- & _). reflexivity.
  - destruct (_ && _); [destruct Hin as [<-|[]]; reflexivity|].
    now apply execute_no_fetch in Hin.
Qed.

(** An order of [run] comes from [execute], entered past every gate. *)
Lemma run_reaches_execute (lib : library) (cfg : config A) (w : world A)
    (args : cli_args A) (ev : event A) :
  In ev (run lib cfg w args) -> is_order ev = true ->
  arg_config args = false /\ arg_orders args = false /\
  truthy_str (arg_cancel args) = false /\
  exists m book,
    discover lib (gamma w) = inr m /\
    (min_time_remaining cfg <= seconds_remaining m)%Z /\
    analyze_book cfg (clob w) (chosen_token args m) (chosen_size cfg args)
      = Estimate book /\
    (blocked book = false \/ arg_force args = true) /\
    In ev (execute cfg w args (chosen_side args) (chosen_token args m)
             (chosen_label args) (chosen_size cfg args)).
Proof.
  unfold run.
  destruct (arg_config args); [intros [<-|[]]; discriminate|].
  destruct (arg_orders args).
  { intros [<-|Hin]; [discriminate|].
    destruct (client_ready w); cbn [negb] in Hin; [|destruct Hin as [<-|[]]; discriminate].
    destruct Hin as [<-|Hin]; [discriminate|].
    destruct (open_orders w) as [[|? ?]|?];
      repeat (destruct Hin as [<-|Hin]; [discriminate|]); destruct Hin. }
  destruct (truthy_str (arg_cancel args)).
  { intros [<-|Hin]; [discriminate|].
    destruct (client_ready w); cbn [negb] in Hin; [|destruct Hin as [<-|[]]; discriminate].
    destruct Hin as [<-|Hin]; [discriminate|].
    destruct (cancel_error w _) as [[|? ?]|]; destruct Hin as [<-|[]]; discriminate. }
  intros [<-|[<-|Hin]]; try discriminate.
  destruct (discover lib (gamma w)) as [err|m] eqn:Hd;
    [destruct err; destruct Hin as [<-|[]]; discriminate|].
  destruct Hin as [<-|Hin]; [discriminate|].
  destruct (Z.ltb_spec (seconds_remaining m) (min_time_remaining cfg)) as [Hlt|Hge];
    [destruct Hin as [<-|[]]; discriminate|].
  unfold price_book in Hin.
  destruct Hin as [<-|[<-|Hin]]; try discriminate.
  destruct (analyze_book cfg (clob w) (chosen_token args m) (chosen_size cfg args))
    as [book|berr|k] eqn:Hb; try (destruct Hin as [<-|[]]; discriminate).
  cbn [app] in Hin. destruct Hin as [<-|Hin]; [discriminate|].
  apply in_app_or in Hin as [Hin|Hin].
  { intros Ho. now rewrite (no_order_in_warnings _ _ Hin) in Ho. }
  destruct (blocked book) eqn:Hblk, (arg_force args) eqn:Hforce; cbn [andb negb] in Hin;
    try (destruct Hin as [<-|[]]; discriminate);
    intros Ho; repeat split; auto; exists m, book; repeat split; auto.
Qed.

(** X18.  An order is placed only on the trading path, with [--live] and
    without [--book], with a client, in a window with at least
    [min_time_remaining] seconds left, on an estimate that is not blocked
    or with [--force]; the order is for the token of the chosen side and
    for the chosen size: a fill-or-kill market order unless the order
    type in force is GTC, and a limit order at [--price] when it is. *)
Theorem order_placed_only_if (lib : library) (cfg : config A) (w : world A)
    (args : cli_args A) (ev : event A) :
  In ev (run lib cfg w args) -> is_order ev = true ->
  arg_config args = false /\ arg_orders args = false /\
  truthy_str (arg_cancel args) = false /\
  arg_live args = true /\ arg_book args = false /\ client_ready w = true /\
  exists m book,
    discover lib (gamma w) = inr m /\
    (min_time_remaining cfg <= seconds_remaining m)%Z /\
    analyze_book cfg (clob w) (chosen_token args m) (chosen_size cfg args)
      = Estimate book /\
    (blocked book = false \/ arg_force args = true) /\
    ((chosen_order_type cfg args <> "GTC"%string /\
      ev = PlaceFOK (chosen_token args m) (chosen_side args) (chosen_size cfg args)) \/
     (chosen_order_type cfg args = "GTC"%string /\
      exists p, arg_price args = Some p /\ truthy p = true /\
        ev = PlaceGTC (chosen_token args m) (chosen_side args) p (chosen_size cfg args))).
Proof.
  intros Hin Ho.
  destruct (run_reaches_execute lib cfg w args ev Hin Ho)
    as (Hc & Hor & Hca & m & book & Hd & Hw & Hb & Hgate & Hex).
  destruct (execute_order _ _ _ _ _ _ _ _ Hex Ho) as (Hl & Hbk & Hcl & Hev).
  repeat split; auto. exists m, book. repeat split; auto.
Qed.

(** X19.  What reaches the client: an order on the YES token is a BUY and an
    order on the NO token is a SELL, for the chosen size; a market order
    is created and posted fill-or-kill, a limit order is created at
    [--price] and posted GTC, and GTC is posted exactly when it is the
    order type in force. *)
Theorem order_side_follows_token (lib : library) (cfg : config A) (w : world A)
    (args : cli_args A) (ev : event A) (call : client_call A) :
  In ev (run lib cfg w args) -> In call (client_calls ev) ->
  exists m, discover lib (gamma w) = inr m /\
    match call with
    | CreateOrder tok p sz sd =>
        ((sd = BUY /\ tok = yes_token m) \/ (sd = SELL /\ tok = no_token m)) /\
        sz = chosen_size cfg args /\ arg_price args = Some p
    | CreateMarketOrder tok amt sd kind =>
        ((sd = BUY /\ tok = yes_token m) \/ (sd = SELL /\ tok = no_token m)) /\
        amt = chosen_size cfg args /\ kind = FOK
    | PostOrder kind => kind = GTC <-> chosen_order_type cfg args = "GTC"%string
    end.
Proof.
  intros Hin Hcall.
  assert (Ho : is_order ev = true) by (destruct ev; try destruct Hcall; reflexivity).
  destruct (run_reaches_execute lib cfg w args ev Hin Ho)
    as (_ & _ & _ & m & book & Hd & _ & _ & _ & Hex).
  destruct (execute_order _ _ _ _ _ _ _ _ Hex Ho) as (_ & _ & _ & Hev).
  exists m. split; [exact Hd|].
  assert (Hside : (side_c (chosen_side args) = BUY /\ chosen_token args m = yes_token m) \/
                  (side_c (chosen_side args) = SELL /\ chosen_token args m = no_token m)).
  { unfold side_c, chosen_token. destruct (String.eqb (chosen_side args) "BUY"); auto. }
  destruct Hev as [[Hfok ->]|(Hgtc & p & Hp & _ & ->)];
    destruct Hcall as [<-|[<-|[]]]; auto.
  - split; [discriminate|]. intros Hc. contradiction.
  - split; auto.
Qed.

(** X20.  Without [--live], or with [--book], an invocation that neither lists
    nor cancels orders needs no client: it only prints and queries the
    listings and the book, whatever the other flags. *)
Theorem run_without_live_is_read_only (lib : library) (cfg : config A) (w : world A)
    (args : cli_args A) :
  arg_orders args = false -> truthy_str (arg_cancel args) = false ->
  arg_live args = false \/ arg_book args = true ->
  forallb read_only (run lib cfg w args) = true.
Proof.
  intros Hor Hca Hdry. unfold run. rewrite Hor, Hca.
  destruct (arg_config args); [reflexivity|].
  cbn [app forallb read_only andb].
  destruct (discover lib (gamma w)) as [err|m]; [now destruct err|].
  cbn [forallb read_only andb].
  destruct (seconds_remaining m <? min_time_remaining cfg)%Z; [reflexivity|].
  unfold price_book. cbn [app forallb read_only andb].
  destruct (analyze_book _ _ _ _) as [book|berr|k]; try reflexivity.
  cbn [app forallb read_only andb]. rewrite forallb_app.
  apply andb_true_iff. split.
  - apply forallb_forall. intros ev Hin.
    apply in_map_iff in Hin as (wn & <- & _). reflexivity.
  - destruct (blocked book && negb (arg_force args)); [reflexivity|].
    unfold execute. destruct (arg_book args) eqn:Hbook; [reflexivity|].
    destruct Hdry as [Hlive|Hb]; [|discriminate]. rewrite Hlive.
    destruct (_ && _); reflexivity.
Qed.

(** X21.  One invocation discovers at most once, fetches at most one book,
    builds at most one client and places at most one order. *)
Theorem run_at_most_once (lib : library) (cfg : config A) (w : world A)
    (args : cli_args A) :
  (length (List.filter is_discover (run lib cfg w args)) <= 1)%nat /\
  (length (List.filter is_fetch (run lib cfg w args)) <= 1)%nat /\
  (length (List.filter is_get_client (run lib cfg w args)) <= 1)%nat /\
  (length (List.filter is_order (run lib cfg w args)) <= 1)%nat.
Proof.
  assert (Hw : forall (f : event A -> bool) (ws : list (warning A)),
            (forall o, f (Print o) = false) ->
            List.filter f (map (fun wn => Print (OutWarning wn)) ws) = []).
  { intros f ws Hf. induction ws as [|x ws IH]; cbn; [reflexivity|].
    now rewrite Hf. }
  assert (Hr : forall (f : event A -> bool) resp,
            (forall o, f (Print o) = false) -> List.filter f (report_order resp) = []).
  { intros f resp Hf. unfold report_order.
    destruct resp as [e|orderID id status errorMsg]; cbn; rewrite ?Hf; [reflexivity|].
    destruct (_ || _); cbn; now rewrite Hf. }
  assert (He : forall (f : event A -> bool) side token label size,
            (forall o, f (Print o) = false) ->
            (f GetClient = true -> forall ev, is_order ev = true -> f ev = false) ->
            f (Exit 1) = false ->
            (length (List.filter f (execute cfg w args side token label size)) <= 1)%nat).
  { intros f side token label size Hf Hgc Hx. unfold execute.
    destruct (arg_book args); [cbn; lia|].
    destruct (_ && _); [cbn; rewrite Hf; cbn; lia|].
    cbn [app List.filter]. rewrite Hf.
    destruct (arg_live args); cbn [negb]; [|cbn; rewrite Hf; cbn; lia].
    cbn [app List.filter]. rewrite Hf.
    destruct (client_ready w); cbn [negb].
    - rewrite List.filter_app, (Hr f _ Hf), app_nil_r.
      destruct (f GetClient) eqn:Eg.
      + destruct (String.eqb _ "GTC"); [destruct (arg_price args)|]; cbn;
          rewrite ?(Hgc eq_refl) by reflexivity; cbn; lia.
      + destruct (String.eqb _ "GTC"); [destruct (arg_price args)|];
          cbn [List.filter];
          try match goal with |- context [if ?c then _ else _] => destruct c end;
          cbn [length]; lia.
    - cbn. rewrite Hx. destruct (f GetClient); cbn; lia. }
  assert (Hp : forall (f : event A -> bool) m,
            (forall o, f (Print o) = false) -> (forall e, f (Raise e) = false) ->
            (f GetClient = true -> forall ev, is_order ev = true -> f ev = false) ->
            f (Exit 1) = false ->
            (forall t, f (FetchBook t) = true -> forall ev, In ev (execute cfg w args
                 (chosen_side args) (chosen_token args m) (chosen_label args)
                 (chosen_size cfg args)) -> f ev = false) ->
            (length (List.filter f (price_book cfg w args m)) <= 1)%nat).
  { intros f m Hf Hraise Hgc Hx Hfetch. unfold price_book.
    cbn [app List.filter]. rewrite Hf.
    set (t := chosen_token args m).
    destruct (analyze_book cfg (clob w) t (chosen_size cfg args)) as [book|berr|k].
    - cbn [app List.filter]. rewrite Hf, List.filter_app, (Hw f _ Hf). cbn [app].
      destruct (blocked book && negb (arg_force args)).
      + cbn. rewrite Hf. destruct (f (FetchBook t)); cbn; lia.
      + destruct (f (FetchBook t)) eqn:Ef.
        * rewrite filter_none; [cbn; lia|].
          intros ev Hin. exact (Hfetch t Ef ev Hin).
        * now apply He.
    - cbn. rewrite Hf. destruct (f (FetchBook t)); cbn; lia.
    - cbn. rewrite Hraise. destruct (f (FetchBook t)); cbn; lia. }
  assert (Hrun : forall (f : event A -> bool),
            (forall o, f (Print o) = false) -> (forall e, f (Raise e) = false) ->
            f (Exit 1) = false -> f ListOrders = false ->
            (forall i, f (CancelOrder i) = false) ->
            (f GetClient = true -> forall ev, is_order ev = true -> f ev = false) ->
            (f GetClient = true -> f Discover = false) ->
            (forall t m, f (FetchBook t) = true -> forall ev, In ev (execute cfg w args
                 (chosen_side args) (chosen_token args m) (chosen_label args)
                 (chosen_size cfg args)) -> f ev = false) ->
            (f Discover = true -> forall m ev, In ev (price_book cfg w args m) -> f ev = false) ->
            (length (List.filter f (run lib cfg w args)) <= 1)%nat).
  { intros f Hf Hraise Hx Hlo Hco Hgc Hgd Hfetch Hdisc. unfold run.
    destruct (arg_config args); [cbn; rewrite Hf; cbn; lia|].
    destruct (arg_orders args).
    { cbn [List.filter]. destruct (client_ready w); cbn [negb].
      - cbn [List.filter]. rewrite Hlo.
        destruct (open_orders w) as [[|? ?]|?]; cbn; rewrite ?Hf, ?Hraise;
          destruct (f GetClient); cbn; lia.
      - cbn. rewrite Hx. destruct (f GetClient); cbn; lia. }
    destruct (truthy_str (arg_cancel args)).
    { cbn [List.filter]. destruct (client_ready w); cbn [negb].
      - cbn [List.filter]. rewrite Hco.
        destruct (cancel_error w _) as [[|? ?]|]; cbn; rewrite Hf;
          destruct (f GetClient); cbn; lia.
      - cbn. rewrite Hx. destruct (f GetClient); cbn; lia. }
    cbn [app List.filter]. rewrite Hf.
    destruct (discover lib (gamma w)) as [err|m].
    - destruct (f Discover); destruct err; cbn; rewrite ?Hf, ?Hraise; cbn; lia.
    - cbn [List.filter]. rewrite Hf.
      destruct (seconds_remaining m <? min_time_remaining cfg)%Z.
      + cbn. rewrite Hf. destruct (f Discover); cbn; lia.
      + destruct (f Discover) eqn:Ed.
        * rewrite filter_none; [cbn; lia|].
          intros ev Hin. exact (Hdisc eq_refl m ev Hin).
        * apply Hp; auto. intros t. apply Hfetch. }
  repeat split; apply Hrun; try reflexivity; try discriminate;
    try (intros; discriminate).
  - intros _ m ev Hin. exact (price_book_no_discover _ _ _ _ _ Hin).
  - intros t m _ ev Hin. now apply execute_no_fetch in Hin.
  - intros _ ev Hev. destruct ev; try reflexivity; discriminate.
Qed.
End Orders.

(** The market order of the worked run: 25 USDC on the YES token. *)
Lemma order_placed_only_if_witness :
  exists m book,
    discover two_minutes_left (gamma (example_world (A := float))) = inr m /\
    (min_time_remaining (strict_config (A := float)) <= seconds_remaining m)%Z /\
    analyze_book strict_config (clob example_world)
      (chosen_token (live_fok true) m) (chosen_size strict_config (live_fok true))
      = Estimate book /\
    (blocked book = false \/ arg_force (live_fok (A := float) true) = true) /\
    ((chosen_order_type strict_config (live_fok (A := float) true) <> "GTC"%string /\
      PlaceFOK "7131" "BUY" (lit 25 0)
      = PlaceFOK (chosen_token (live_fok true) m) (chosen_side (live_fok true))
          (chosen_size strict_config (live_fok true))) \/
     (chosen_order_type strict_config (live_fok (A := float) true) = "GTC"%string /\
      exists p, arg_price (live_fok true) = Some p /\ truthy p = true /\
        PlaceFOK "7131" "BUY" (lit 25 0)
        = PlaceGTC (chosen_token (live_fok true) m) (chosen_side (live_fok true)) p
            (chosen_size strict_config (live_fok true)))).
Proof.
  refine (proj2 (proj2 (proj2 (proj2 (proj2 (proj2
    (order_placed_only_if two_minutes_left strict_config (example_world (A := float))
       (live_fok true) (PlaceFOK "7131" "BUY" (lit 25 0)) _ _))))))).
  - vm_compute. tauto.
  - reflexivity.
Defined.

(** The same order at the client: a BUY on the YES token. *)
Lemma order_side_follows_token_witness :
  exists m, discover two_minutes_left (gamma (example_world (A := float))) = inr m /\
    ((BUY = BUY /\ "7131"%string = yes_token m) \/
     (BUY = SELL /\ "7131"%string = no_token m)) /\
    lit 25 0 = chosen_size strict_config (live_fok (A := float) true) /\ FOK = FOK.
Proof.
  apply (order_side_follows_token two_minutes_left strict_config
           (example_world (A := float)) (live_fok true)
           (PlaceFOK "7131" "BUY" (lit 25 0))
           (CreateMarketOrder "7131" (lit 25 0) BUY FOK)).
  - vm_compute. tauto.
  - vm_compute. tauto.
Defined.

(** A forced market order on the NO token without [--live]. *)
Lemma run_without_live_is_read_only_witness :
  forallb read_only
    (run two_minutes_left strict_config (example_world (A := float)) dry_run_fok) = true.
Proof.
  apply run_without_live_is_read_only; [reflexivity|reflexivity|now left].
Defined.

(* ================================================================== *)
(** ** More on [analyze_book]: what the liquidity warning measures *)

(** X8.  The liquidity warning measures the usable book: on a positive budget
    it is given exactly when the levels the walk does not skip are worth
    less than 99% of the budget, and the amount it reports is their worth;
    without it at least 99% of the budget is spent. *)
Theorem insufficient_liquidity_means_shallow (cfg : config Q)
    (fetch : string -> book_response Q) (tok : string) (usdc : Q)
    (asks bids : list (level Q)) (e : fill_estimate Q) :
  0 < usdc ->
  fetch tok = Book asks bids ->
  analyze_book cfg fetch tok usdc = Estimate e ->
  (existsb is_insufficient (warnings e) = true <->
   depth (List.filter valid asks) < usdc * (99 # 100)) /\
  (forall c, In (InsufficientLiquidity c) (warnings e) ->
             c == depth (List.filter valid asks)) /\
  (existsb is_insufficient (warnings e) = false ->
   usdc * (99 # 100) <= snd (walk_book asks usdc) /\ snd (walk_book asks usdc) <= usdc).
Proof.
  intros Hu Hf He.
  destruct (analyze_book_Estimate _ _ _ _ _ He)
    as (asks' & bids' & ba & bb & d & Hf' & _ & _ & _ & ->).
  rewrite Hf in Hf'. inversion Hf'; subst asks' bids'. clear Hf'.
  rewrite analyze_warnings.
  assert (Hb : 0 <= usdc) by lra.
  destruct (walk_book_cost asks usdc Hb) as (_ & _ & Hle & Hin & Hout).
  set (cost := snd (walk_book asks usdc)) in *.
  set (dp := depth (List.filter valid asks)) in *.
  assert (Hex : existsb is_insufficient
                  (slippage_warnings cfg (slippage_pct (analyze cfg asks usdc ba bb d))
                   ++ liquidity_warnings cost usdc)
                = Qltb cost (usdc * (99 # 100))).
  { rewrite existsb_app, no_insufficient_in_slippage. unfold liquidity_warnings. pyQ.
    change (@nltb Q Q_float) with Qltb.
    now destruct (Qltb cost (usdc * (99 # 100))). }
  rewrite Hex.
  assert (Hcases : (usdc <= dp /\ cost == usdc) \/ (dp <= usdc /\ cost == dp)).
  { destruct (Qlt_le_dec dp usdc) as [Hd|Hd].
    - right. split; [lra|]. apply Hout. lra.
    - left. split; [exact Hd|]. now apply Hin. }
  split; [|split].
  - split.
    + intros Hlt. apply Qltb_true in Hlt. destruct Hcases as [[? ?]|[? ?]]; lra.
    + intros Hd. apply Qltb_true. destruct Hcases as [[? ?]|[? ?]]; lra.
  - intros c Hc. apply in_app_or in Hc as [Hc|Hc].
    + exfalso.
      pose proof (no_insufficient_in_slippage cfg
                    (slippage_pct (analyze cfg asks usdc ba bb d))) as Hn.
      assert (Hy : existsb is_insufficient
                     (slippage_warnings cfg (slippage_pct (analyze cfg asks usdc ba bb d)))
                   = true).
      { apply existsb_exists. exists (InsufficientLiquidity c). split; [exact Hc|reflexivity]. }
      congruence.
    + unfold liquidity_warnings in Hc. pyQ. change (@nltb Q Q_float) with Qltb in Hc.
      destruct (Qltb cost (usdc * (99 # 100))) eqn:Hlt; [|destruct Hc].
      destruct Hc as [Hc|[]]. inversion Hc; subst c.
      apply Qltb_true in Hlt. destruct Hcases as [[? ?]|[? ?]]; lra.
  - intros Hlt. apply Qltb_false in Hlt. split; lra.
Qed.

(** A book of 26.5 against a budget of 100. *)
Lemma insufficient_liquidity_means_shallow_witness :
  existsb is_insufficient
    (warnings (analyze (default_config (A := Q)) example_asks (lit 100 0)
                 (Some (lit 50 2)) None (lit 265 1))) = true.
Proof.
  assert (He : analyze_book default_config (fun _ => Book example_asks [])
                 "yes"%string (lit 100 0)
               = Estimate (analyze (default_config (A := Q)) example_asks (lit 100 0)
                             (Some (lit 50 2)) None (lit 265 1))).
  { vm_compute. reflexivity. }
  refine (proj2 (proj1 (insufficient_liquidity_means_shallow default_config
            (fun _ => Book example_asks []) "yes"%string (lit 100 0)
            example_asks [] _ _ eq_refl He)) _).
  - vm_compute. reflexivity.
  - vm_compute. reflexivity.
Defined.
